(** * Pokémon Name Jar: the stores and the draw of [streamlit_app.py]

    A shallow embedding of the database helpers ([get_conn],
    [add_suggestion], [list_suggestions], [clear_suggestions],
    [add_assignment], [list_assignments], [clear_assignments]) and of the
    two form handlers of the script (the submit handler of the Collect
    tab and the pick handler of the Assign tab, with the computation of
    [assigned] and [draw_pool] that precedes it).

    Modelling choices.
    - A Python [str] is a [string]; a character is its code point, and
      the model covers the code points 0..255 (Latin-1), on which
      [str.strip], [str.lower] and the comparison used by [sorted] are
      written out below as CPython computes them.
    - A SQLite table with an [INTEGER PRIMARY KEY AUTOINCREMENT] column is
      a list of rows in rowid order together with the counter SQLite
      keeps in [sqlite_sequence].  Row ids are unbounded integers:
      storage failures (disk full, rowid exhaustion) are not modelled.
    - [datetime.utcnow().isoformat()] is an input [now] of the operation
      that reads the clock; [random.choice] takes the number [r] delivered
      by the random source.
    - The connection [conn] is the database state, threaded explicitly. *)

From Stdlib Require Import ZArith QArith Ascii String DecimalString DecimalZ.
From stdpp Require Import base decidable list sorting strings gmap.

Local Open Scope string_scope.
Local Open Scope Z_scope.
Local Open Scope list_scope.

(** ** Python strings *)

Module PyStr.

Definition code (c : ascii) : N := N_of_ascii c.

(** [Py_UNICODE_ISSPACE] on code points below 256: TAB, LF, VT, FF, CR,
    FS, GS, RS, US, SPACE, NEL and NBSP. *)
Definition isspace (c : ascii) : bool :=
  let n := code c in
  ((9 <=? n) && (n <=? 13) || (28 <=? n) && (n <=? 32)
   || (n =? 133) || (n =? 160))%N.

(** [str.lower] on one code point below 256: A-Z, and the Latin-1
    capitals U+00C0..U+00DE except the multiplication sign U+00D7. *)
Definition lower_char (c : ascii) : ascii :=
  let n := code c in
  if ((65 <=? n) && (n <=? 90) || (192 <=? n) && (n <=? 214)
      || (216 <=? n) && (n <=? 222))%N
  then ascii_of_N (n + 32) else c.

Fixpoint lower (s : string) : string :=
  match s with
  | EmptyString => EmptyString
  | String c s' => String (lower_char c) (lower s')
  end.

Fixpoint lstrip (s : string) : string :=
  match s with
  | EmptyString => EmptyString
  | String c s' => if isspace c then lstrip s' else s
  end.

Fixpoint rstrip (s : string) : string :=
  match s with
  | EmptyString => EmptyString
  | String c s' =>
      match rstrip s' with
      | EmptyString => if isspace c then EmptyString else String c EmptyString
      | t => String c t
      end
  end.

(** [s.strip()]: the slice between the first and the last character
    that is not white space. *)
Definition strip (s : string) : string := rstrip (lstrip s).

(** [len(s)], a number of code points. *)
Definition len (s : string) : Z := Z.of_nat (String.length s).

(** Truth value of a string in a condition: non-empty. *)
Definition truthy (s : string) : bool :=
  match s with EmptyString => false | String _ _ => true end.

(** What is left of [lstrip] does not start with white space. *)
Definition starts_clean (s : string) : Prop :=
  match s with
  | EmptyString => True
  | String c _ => isspace c = false
  end.

(** [sorted] on a list of [str]: ascending in the order that compares
    code points position by position.  Python's sort is a merge sort;
    so is this one. *)
Definition sorted (l : list string) : list string := merge_sort String.le l.

End PyStr.

(** ** A table with an AUTOINCREMENT primary key *)

Module Table.

Record table (A : Type) : Type := mk {
  rows : list (Z * A);  (* the rows, in rowid order *)
  seq : Z               (* sqlite_sequence: the largest rowid ever used *)
}.
Arguments mk {A} _ _.
Arguments rows {A} _.
Arguments seq {A} _.

(** [CREATE TABLE IF NOT EXISTS] on a fresh database file. *)
Definition create {A} : table A := mk [] 0.

Definition max_rowid {A} (rs : list (Z * A)) : Z :=
  foldr (fun r m => Z.max r.1 m) 0 rs.

(** The rowid SQLite gives to the next [INSERT]: one more than the
    largest rowid that ever was in the table. *)
Definition next_id {A} (t : table A) : Z :=
  Z.max (seq t) (max_rowid (rows t)) + 1.

(** [INSERT INTO t(...) VALUES(...)] followed by [commit]. *)
Definition insert {A} (t : table A) (a : A) : table A :=
  mk (rows t ++ [(next_id t, a)]) (next_id t).

(** [DELETE FROM t] followed by [commit]; [sqlite_sequence] stays. *)
Definition delete_all {A} (t : table A) : table A := mk [] (seq t).

Definition id_ge {A} (r1 r2 : Z * A) : Prop := r2.1 <= r1.1.

#[global] Instance id_ge_dec {A} : RelDecision (@id_ge A).
Proof. intros r1 r2. unfold id_ge. apply _. Defined.

(** [SELECT id, ... FROM t ORDER BY id DESC]. *)
Definition select_desc {A} (t : table A) : list (Z * A) :=
  merge_sort id_ge (rows t).

(** Rows lie in increasing rowid order. *)
Definition asc {A} (rs : list (Z * A)) : Prop :=
  StronglySorted (fun r1 r2 => r1.1 < r2.1) rs.

(** The state of a table that only [insert] and [delete_all] wrote. *)
Definition wf {A} (t : table A) : Prop :=
  asc (rows t) ∧ 0 <= seq t ∧ Forall (fun r => 0 < r.1 <= seq t) (rows t).

#[global] Instance wf_dec {A} (t : table A) : Decision (wf t).
Proof. unfold wf, asc. apply _. Defined.

End Table.

Import Table.

(** ** The database of the application *)

Record suggestion : Type := mk_suggestion {
  name : string;
  user : string;
  sug_ts : string
}.

Record assignment : Type := mk_assignment {
  pokemon : string;
  chosen_name : string;
  asg_ts : string
}.

Record db : Type := mk_db {
  suggestions : table suggestion;
  assignments : table assignment
}.

(** [get_conn] on a new [names.db]: both tables exist and are empty. *)
Definition get_conn : db := mk_db create create.

Definition add_suggestion (conn : db) (name user now : string) : db :=
  mk_db (insert (suggestions conn)
           (mk_suggestion (PyStr.strip name) (PyStr.strip user) now))
        (assignments conn).

Definition list_suggestions (conn : db) : list (Z * suggestion) :=
  select_desc (suggestions conn).

Definition clear_suggestions (conn : db) : db :=
  mk_db (delete_all (suggestions conn)) (assignments conn).

Definition add_assignment (conn : db) (pokemon chosen_name now : string) : db :=
  mk_db (suggestions conn)
        (insert (assignments conn)
           (mk_assignment (PyStr.strip pokemon) (PyStr.strip chosen_name) now)).

Definition list_assignments (conn : db) : list (Z * assignment) :=
  select_desc (assignments conn).

Definition clear_assignments (conn : db) : db :=
  mk_db (suggestions conn) (delete_all (assignments conn)).

(** ** The Collect tab: submitting a name *)

Inductive submit_result : Type :=
| InvalidName                 (* "Please enter a valid name." *)
| NameTooLong                 (* "Name is too long (max 50 characters)." *)
| Added (shown : string).     (* "Added ..." *)

Definition submit (conn : db) (name user now : string) : submit_result * db :=
  if negb (PyStr.truthy name) || negb (PyStr.truthy (PyStr.strip name))
  then (InvalidName, conn)
  else if 50 <? PyStr.len (PyStr.strip name)
  then (NameTooLong, conn)
  else (Added (PyStr.strip name),
        add_suggestion conn (PyStr.strip name) user now).

(** ** The Assign tab: the pool and the draw *)

(** The column [name] of [list_suggestions], as a list. *)
Definition pool_names (conn : db) : list string :=
  (fun r => name r.2) <$> list_suggestions conn.

Definition assigned (conn : db) (unique_only : bool) : gset string :=
  if unique_only
  then list_to_set ((fun r => PyStr.lower (chosen_name r.2)) <$> list_assignments conn)
  else ∅.

(** The keys of the dictionary built by a comprehension over [ks]: each
    key once, at the place of its first insertion. *)
Definition dict_keys (ks : list string) : list string :=
  fold_left (fun (acc : list string) k =>
               if decide (k ∈ acc) then acc else (acc ++ [k])%list) ks [].

Definition draw_pool (conn : db) (unique_only allow_duplicates_in_pool : bool)
  : list string :=
  let asg := assigned conn unique_only in
  if allow_duplicates_in_pool
  then filter (fun n => PyStr.lower n ∉ asg) (pool_names conn)
  else PyStr.sorted
         (dict_keys
            (PyStr.strip <$>
               filter (fun n => PyStr.strip n ≠ "" ∧ PyStr.lower n ∉ asg)
                      (pool_names conn))).

(** [random.choice(seq)] is [seq[randbelow(len(seq))]]; [r] is what the
    random source delivers, brought into [range(len(seq))].  [None] is
    the [IndexError] Python raises on an empty sequence. *)
Definition random_choice (r : nat) (pool : list string) : option string :=
  match pool with
  | [] => None
  | _ :: _ => pool !! (r `mod` length pool)%nat
  end.

Inductive pick_result : Type :=
| SubjectMissing              (* "Please enter the Pokemon to name." *)
| NoAvailableNames            (* "No available names to draw from. ..." *)
| Chosen (chosen : string)    (* "Chosen name for ...: ..." *)
| Raised.                     (* an exception leaves the handler *)

Definition pick (conn : db) (pokemon_name : string)
    (unique_only allow_duplicates_in_pool : bool) (r : nat) (now : string)
  : pick_result * db :=
  let pool := draw_pool conn unique_only allow_duplicates_in_pool in
  if negb (PyStr.truthy (PyStr.strip pokemon_name))
  then (SubjectMissing, conn)
  else if bool_decide (pool = [])
  then (NoAvailableNames, conn)
  else match random_choice r pool with
       | Some chosen =>
           (Chosen chosen,
            add_assignment conn (PyStr.strip pokemon_name) chosen now)
       | None => (Raised, conn)
       end.

(** ** Sessions: the interactions of the users with the page *)

Inductive op : Type :=
| Submit (name user now : string)
| Pick (pokemon_name : string) (unique_only allow_duplicates_in_pool : bool)
       (r : nat) (now : string)
| ClearSuggestions
| ClearAssignments.

Definition step (conn : db) (o : op) : db :=
  match o with
  | Submit n u now => (submit conn n u now).2
  | Pick p u a r now => (pick conn p u a r now).2
  | ClearSuggestions => clear_suggestions conn
  | ClearAssignments => clear_assignments conn
  end.

Definition run (ops : list op) (conn : db) : db := fold_left step ops conn.

(** The states the database goes through, the first one included. *)
Fixpoint history (ops : list op) (conn : db) : list db :=
  match ops with
  | [] => [conn]
  | o :: ops' => conn :: history ops' (step conn o)
  end.

(** ** Invariants of the database *)

(** Stored names are trimmed and not empty: what the submit handler
    checks before it calls [add_suggestion]. *)
Definition names_ok (conn : db) : Prop :=
  Forall (fun r => PyStr.strip (name r.2) = name r.2 ∧ name r.2 ≠ "")
         (rows (suggestions conn)).

#[global] Instance names_ok_dec conn : Decision (names_ok conn).
Proof. unfold names_ok. apply _. Defined.

(** Both tables are as [insert] and [delete_all] leave them. *)
Definition tables_ok (conn : db) : Prop :=
  wf (suggestions conn) ∧ wf (assignments conn).

#[global] Instance tables_ok_dec conn : Decision (tables_ok conn).
Proof. unfold tables_ok. apply _. Defined.

Definition db_ok (conn : db) : Prop := tables_ok conn ∧ names_ok conn.

(** ** Vocabulary of the properties *)

(** The outcome a draw is said to have: one assignment appended, with the
    subject as [written] stores it, the chosen name and the time, or
    nothing written and the empty-pool warning. *)
Definition draw_contract (written : string → string)
    (conn : db) (p : string) (u a : bool) (r : nat) (now : string) : Prop :=
  let res := pick conn p u a r now in
  (∃ chosen,
      chosen ∈ draw_pool conn u a
      ∧ res.1 = Chosen chosen
      ∧ suggestions res.2 = suggestions conn
      ∧ rows (assignments res.2)
        = rows (assignments conn)
            ++ [(next_id (assignments conn),
                 mk_assignment (written p) chosen now)])
  ∨ (draw_pool conn u a = [] ∧ res.1 = NoAvailableNames ∧ res.2 = conn).

(** The two messages with which the form refuses a name. *)
Definition is_validation_error (res : submit_result) : Prop :=
  res = InvalidName ∨ res = NameTooLong.

(** A pool that offers the names of [expected] and no other. *)
Definition offers_exactly (pool expected : list string) : Prop :=
  ∀ x, x ∈ pool ↔ x ∈ expected.

(** What [random.choice] returns for each of the equally likely values
    of [randbelow(len(pool))]. *)
Definition choice_outcomes (pool : list string) : list (option string) :=
  (fun r => random_choice r pool) <$> List.seq 0 (length pool).

(** In how many of them the name [x] comes out. *)
Definition ways (x : string) (pool : list string) : nat :=
  length (filter (fun o => o = Some x) (choice_outcomes pool)).

(** How many times [x] is in the pool. *)
Definition multiplicity (x : string) (pool : list string) : nat :=
  length (filter (fun y => y = x) pool).

(** [x] is the name of a row of the suggestions table. *)
Definition suggested (conn : db) (x : string) : Prop :=
  ∃ s, s ∈ rows (suggestions conn) ∧ name s.2 = x.

(** [x] is, up to case, the chosen name of a row of the assignments
    table. *)
Definition taken (conn : db) (x : string) : Prop :=
  ∃ a, a ∈ rows (assignments conn)
       ∧ PyStr.lower (chosen_name a.2) = PyStr.lower x.

#[global] Instance pick_result_eq_dec : EqDecision pick_result.
Proof. solve_decision. Defined.

(** How many rows of the suggestions table have the name [x]. *)
Definition times_suggested (conn : db) (x : string) : nat :=
  length (filter (fun s => name s.2 = x) (rows (suggestions conn))).

(** For how many of the equally likely values of [randbelow(len(pool))]
    a click on the draw button, with the unique-names toggle off and
    duplicates kept, returns the name [x]. *)
Definition draw_ways (conn : db) (p now x : string) : nat :=
  length (filter (fun r => (pick conn p false true r now).1 = Chosen x)
                 (List.seq 0 (length (draw_pool conn false true)))).

(** The chance that this click returns [x]. *)
Definition draw_probability (conn : db) (p now x : string) : Q :=
  Qdiv (inject_Z (Z.of_nat (draw_ways conn p now x)))
       (inject_Z (Z.of_nat (length (draw_pool conn false true)))).

(** A run of calls of [add_suggestion], of [add_assignment]. *)
Definition add_suggestions (conn : db) (calls : list (string * string * string)) : db :=
  fold_left (fun c '(n, u, now) => add_suggestion c n u now) calls conn.

Definition add_assignments (conn : db) (calls : list (string * string * string)) : db :=
  fold_left (fun c '(p, ch, now) => add_assignment c p ch now) calls conn.

(** The row each call writes. *)
Definition suggestion_of (call : string * string * string) : suggestion :=
  let '(n, u, now) := call in mk_suggestion (PyStr.strip n) (PyStr.strip u) now.

Definition assignment_of (call : string * string * string) : assignment :=
  let '(p, ch, now) := call in mk_assignment (PyStr.strip p) (PyStr.strip ch) now.

(** A listing whose ids decrease strictly. *)
Definition newest_first {A} (l : list (Z * A)) : Prop :=
  StronglySorted (fun r1 r2 => r2.1 < r1.1) l.

(** ** Example sessions *)

(** Three friends put "Luna", "luna" and "Blaze" in the jar. *)
Definition jar3 : db :=
  run [Submit "Luna" "misty" "2024-05-01T10:00:00";
       Submit "luna" "" "2024-05-01T10:01:00";
       Submit "Blaze" "ash" "2024-05-01T10:02:00"] get_conn.

(** Five suggestions, two of them the same, and "Blaze" assigned. *)
Definition jar_used : db :=
  run [Submit "Luna" "misty" "2024-05-01T10:00:00";
       Submit "luna" "" "2024-05-01T10:01:00";
       Submit "Blaze" "ash" "2024-05-01T10:02:00";
       Submit "Blaze" "gary" "2024-05-01T10:03:00";
       Submit "Abra" "" "2024-05-01T10:04:00";
       Pick "Eevee" true false 1 "2024-05-02T09:00:00"] get_conn.

(** "A" twice and "B" once. *)
Definition jar_aab : db :=
  run [Submit "A" "" "2024-05-01T10:00:00";
       Submit "A" "" "2024-05-01T10:01:00";
       Submit "B" "" "2024-05-01T10:02:00"] get_conn.

(** ** White space at the ends of a string *)

Fixpoint all_space (s : string) : bool :=
  match s with
  | EmptyString => true
  | String c s' => PyStr.isspace c && all_space s'
  end.

Definition first_char (s : string) : option ascii :=
  match s with
  | EmptyString => None
  | String c _ => Some c
  end.

Fixpoint last_char (s : string) : option ascii :=
  match s with
  | EmptyString => None
  | String c EmptyString => Some c
  | String _ s' => last_char s'
  end.

(** Neither the first nor the last character is white space. *)
Definition clean_ends (s : string) : Prop :=
  (∀ c, first_char s = Some c → PyStr.isspace c = false)
  ∧ (∀ c, last_char s = Some c → PyStr.isspace c = false).

(** ** What the handlers let into the tables *)

Definition suggestion_valid (s : suggestion) : Prop :=
  name s ≠ "" ∧ PyStr.strip (name s) = name s ∧ PyStr.len (name s) <= 50
  ∧ PyStr.strip (user s) = user s.

Definition assignment_valid (a : assignment) : Prop :=
  pokemon a ≠ "" ∧ PyStr.strip (pokemon a) = pokemon a
  ∧ chosen_name a ≠ "" ∧ PyStr.strip (chosen_name a) = chosen_name a
  ∧ PyStr.len (chosen_name a) <= 50.

Definition rows_valid (conn : db) : Prop :=
  Forall (fun r => suggestion_valid r.2) (rows (suggestions conn))
  ∧ Forall (fun r => assignment_valid r.2) (rows (assignments conn)).

(** The ids of a table that was never cleared: 1, 2, ..., with no gap. *)
Definition gap_free {A} (t : table A) : Prop :=
  fst <$> rows t = Z.of_nat <$> List.seq 1 (length (rows t))
  ∧ seq t = Z.of_nat (length (rows t)).

(** ** The admin controls *)

(** One interaction with the page when the sidebar holds [admin_key]:
    the two clear buttons are there, and do something, only under
    [if admin_key and st.button(...)]. *)
Definition admin_step (admin_key : string) (conn : db) (o : op) : db :=
  match o with
  | ClearSuggestions =>
      if PyStr.truthy admin_key then clear_suggestions conn else conn
  | ClearAssignments =>
      if PyStr.truthy admin_key then clear_assignments conn else conn
  | _ => step conn o
  end.

Definition admin_run (admin_key : string) (ops : list op) (conn : db) : db :=
  fold_left (admin_step admin_key) ops conn.

(** ** The Showdown slug *)

(** [unicodedata.normalize("NFKD", c).encode("ascii", "ignore")
    .decode("ascii")] for one code point below 256: the ASCII characters
    of its compatibility decomposition. *)
Definition nfkd_ascii_char (c : ascii) : string :=
  let n := PyStr.code c in
  let one (k : N) := (n =? k)%N in
  let within (lo hi : N) := ((lo <=? n) && (n <=? hi))%N in
  if (n <? 128)%N then String c EmptyString
  else if one 160%N || one 168%N || one 175%N || one 180%N || one 184%N then " "
  else if one 170%N then "a"
  else if one 178%N then "2"
  else if one 179%N then "3"
  else if one 185%N then "1"
  else if one 186%N then "o"
  else if one 188%N then "14"
  else if one 189%N then "12"
  else if one 190%N then "34"
  else if within 192%N 197%N then "A"
  else if one 199%N then "C"
  else if within 200%N 203%N then "E"
  else if within 204%N 207%N then "I"
  else if one 209%N then "N"
  else if within 210%N 214%N then "O"
  else if within 217%N 220%N then "U"
  else if one 221%N then "Y"
  else if within 224%N 229%N then "a"
  else if one 231%N then "c"
  else if within 232%N 235%N then "e"
  else if within 236%N 239%N then "i"
  else if one 241%N then "n"
  else if within 242%N 246%N then "o"
  else if within 249%N 252%N then "u"
  else if one 253%N || one 255%N then "y"
  else "".

Fixpoint nfkd_ascii (s : string) : string :=
  match s with
  | EmptyString => EmptyString
  | String c s' => (nfkd_ascii_char c ++ nfkd_ascii s')%string
  end.

(** [s.replace(old, new)] for an [old] of one character. *)
Fixpoint replace_char (old : ascii) (new : string) (s : string) : string :=
  match s with
  | EmptyString => EmptyString
  | String c s' =>
      if Ascii.eqb c old then (new ++ replace_char old new s')%string
      else String c (replace_char old new s')
  end.

Definition normalize_for_showdown (name : string) : string :=
  let s := nfkd_ascii name in
  replace_char "'" "" (replace_char " " "-" (PyStr.lower s)).

(** What [normalize_for_showdown] makes of one character. *)
Definition slug_of_char (c : ascii) : string :=
  replace_char "'" "" (replace_char " " "-" (PyStr.lower (nfkd_ascii_char c))).

(** A character a slug is made of: ASCII, and neither a space, nor an
    apostrophe, nor a capital letter. *)
Definition slug_char (c : ascii) : bool :=
  let n := PyStr.code c in
  ((n <? 128) && negb (n =? 32) && negb (n =? 39)
   && negb ((65 <=? n) && (n <=? 90)))%N.

Fixpoint all_chars (P : ascii → bool) (s : string) : bool :=
  match s with
  | EmptyString => true
  | String c s' => P c && all_chars P s'
  end.

(** ** The Export tab: JSON *)

Module Json.

Local Open Scope string_scope.

Definition quote : ascii := "034"%char.
Definition backslash : ascii := "092"%char.
Definition nl : string := String "010"%char EmptyString.

Definition hex_digit (n : N) : ascii :=
  match n with
  | 0 => "0" | 1 => "1" | 2 => "2" | 3 => "3" | 4 => "4" | 5 => "5"
  | 6 => "6" | 7 => "7" | 8 => "8" | 9 => "9" | 10 => "a" | 11 => "b"
  | 12 => "c" | 13 => "d" | 14 => "e" | _ => "f"
  end%N%char.

(** The escape of one character in [json.dumps] with [ensure_ascii]:
    the short escapes, the printable ASCII characters as they are, and
    four lower-case hexadecimal digits for the rest. *)
Definition escape_char (c : ascii) : string :=
  let n := PyStr.code c in
  if (n =? 34)%N then String backslash (String quote EmptyString)
  else if (n =? 92)%N then String backslash (String backslash EmptyString)
  else if (n =? 10)%N then String backslash "n"
  else if (n =? 13)%N then String backslash "r"
  else if (n =? 9)%N then String backslash "t"
  else if (n =? 8)%N then String backslash "b"
  else if (n =? 12)%N then String backslash "f"
  else if ((32 <=? n) && (n <=? 126))%N then String c EmptyString
  else String backslash
         (String "u" (String "0" (String "0"
            (String (hex_digit (n / 16)) (String (hex_digit (n mod 16))
               EmptyString))))).

Fixpoint escape (s : string) : string :=
  match s with
  | EmptyString => EmptyString
  | String c s' => escape_char c ++ escape s'
  end.

Definition json_string (s : string) : string :=
  String quote (escape s ++ String quote EmptyString).

(** An [int] is written in decimal. *)
Definition json_int (z : Z) : string :=
  DecimalString.NilEmpty.string_of_int (Z.to_int z).

Fixpoint spaces (n : nat) : string :=
  match n with
  | O => EmptyString
  | S n' => String " " (spaces n')
  end.

(** With [indent=2]: a line feed and two spaces for each level. *)
Definition newline_indent (level : nat) : string := nl ++ spaces (2 * level).

Fixpoint join (sep : string) (items : list string) : string :=
  match items with
  | [] => EmptyString
  | [x] => x
  | x :: rest => x ++ sep ++ join sep rest
  end.

Definition json_member (key value : string) : string :=
  json_string key ++ ": " ++ value.

(** A dict, a list, written at nesting depth [level]. *)
Definition json_object (level : nat) (members : list string) : string :=
  match members with
  | [] => "{}"
  | _ => "{" ++ newline_indent (S level)
             ++ join ("," ++ newline_indent (S level)) members
             ++ newline_indent level ++ "}"
  end.

Definition json_array (level : nat) (items : list string) : string :=
  match items with
  | [] => "[]"
  | _ => "[" ++ newline_indent (S level)
             ++ join ("," ++ newline_indent (S level)) items
             ++ newline_indent level ++ "]"
  end.

(** One record of [df.to_dict(orient="records")]: the id and three
    text columns, under the names of the columns. *)
Definition row_json (k1 k2 k3 : string) (r : Z * (string * string * string))
  : string :=
  let '(id, (v1, v2, v3)) := r in
  json_object 1 [json_member "id" (json_int id);
                 json_member k1 (json_string v1);
                 json_member k2 (json_string v2);
                 json_member k3 (json_string v3)].

(** [json.dumps(records, indent=2)]. *)
Definition dumps (k1 k2 k3 : string) (records : list (Z * (string * string * string)))
  : string :=
  json_array 0 (row_json k1 k2 k3 <$> records).

End Json.

(** The three text columns of a row, in the order of the SELECT. *)
Definition suggestion_columns (r : Z * suggestion) : Z * (string * string * string) :=
  (r.1, (name r.2, user r.2, sug_ts r.2)).

Definition assignment_columns (r : Z * assignment) : Z * (string * string * string) :=
  (r.1, (pokemon r.2, chosen_name r.2, asg_ts r.2)).

(** The text behind "Download suggestions (JSON)"; [None] when the table
    is empty and the page shows "No suggestions to export." instead of
    the button.  The column [ts] goes out as [timestamp]. *)
Definition export_suggestions_json (conn : db) : option string :=
  match list_suggestions conn with
  | [] => None
  | df => Some (Json.dumps "name" "user" "timestamp" (suggestion_columns <$> df))
  end.

Definition export_assignments_json (conn : db) : option string :=
  match list_assignments conn with
  | [] => None
  | df => Some (Json.dumps "pokemon" "chosen_name" "timestamp"
                  (assignment_columns <$> df))
  end.

(** ** A reader for the exported text *)

Module JsonRead.

Local Open Scope string_scope.

(** [s] without its prefix [p], when it has it. *)
Fixpoint strip_prefix (p s : string) : option string :=
  match p with
  | EmptyString => Some s
  | String a p' =>
      match s with
      | EmptyString => None
      | String b s' => if Ascii.eqb a b then strip_prefix p' s' else None
      end
  end.

Definition is_int_char (c : ascii) : bool :=
  let n := PyStr.code c in ((n =? 45) || (48 <=? n) && (n <=? 57))%N.

(** The longest prefix made of a sign and digits, and the rest. *)
Fixpoint read_int_chars (s : string) : string * string :=
  match s with
  | EmptyString => (EmptyString, EmptyString)
  | String c s' =>
      if is_int_char c
      then let '(d, rest) := read_int_chars s' in (String c d, rest)
      else (EmptyString, s)
  end.

Definition read_int (s : string) : option (Z * string) :=
  let '(d, rest) := read_int_chars s in
  match DecimalString.NilEmpty.int_of_string d with
  | Some i => Some (Z.of_int i, rest)
  | None => None
  end.

Definition hex_value (c : ascii) : option N :=
  let n := PyStr.code c in
  if ((48 <=? n) && (n <=? 57))%N then Some (n - 48)%N
  else if ((97 <=? n) && (n <=? 102))%N then Some (n - 87)%N
  else None.

(** The text of a string up to its closing quote, unescaped, and what
    follows the quote. *)
Fixpoint read_string_body (s : string) : option (string * string) :=
  match s with
  | EmptyString => None
  | String c s' =>
      if Ascii.eqb c Json.quote then Some (EmptyString, s')
      else if Ascii.eqb c Json.backslash then
        match s' with
        | EmptyString => None
        | String e s'' =>
            let continue (d : ascii) (rest : string) :=
              match read_string_body rest with
              | Some (v, rest') => Some (String d v, rest')
              | None => None
              end in
            if Ascii.eqb e Json.quote then continue Json.quote s''
            else if Ascii.eqb e Json.backslash then continue Json.backslash s''
            else if Ascii.eqb e "n" then continue "010"%char s''
            else if Ascii.eqb e "r" then continue "013"%char s''
            else if Ascii.eqb e "t" then continue "009"%char s''
            else if Ascii.eqb e "b" then continue "008"%char s''
            else if Ascii.eqb e "f" then continue "012"%char s''
            else if Ascii.eqb e "u" then
              match s'' with
              | String "0" (String "0" (String h1 (String h2 s3))) =>
                  match hex_value h1, hex_value h2 with
                  | Some a, Some b =>
                      match read_string_body s3 with
                      | Some (v, rest') =>
                          Some (String (ascii_of_N (16 * a + b)) v, rest')
                      | None => None
                      end
                  | _, _ => None
                  end
              | _ => None
              end
            else None
        end
      else
        match read_string_body s' with
        | Some (v, rest') => Some (String c v, rest')
        | None => None
        end
  end.

Definition read_string (s : string) : option (string * string) :=
  match s with
  | String c s' => if Ascii.eqb c Json.quote then read_string_body s' else None
  | EmptyString => None
  end.

(** One record written by [Json.row_json], and what follows it. *)
Definition read_row (k1 k2 k3 : string) (s : string)
  : option (Z * (string * string * string) * string) :=
  s ← strip_prefix ("{" ++ Json.newline_indent 2
                        ++ Json.json_string "id" ++ ": ") s;
  '(id, s) ← read_int s;
  s ← strip_prefix ("," ++ Json.newline_indent 2
                        ++ Json.json_string k1 ++ ": ") s;
  '(v1, s) ← read_string s;
  s ← strip_prefix ("," ++ Json.newline_indent 2
                        ++ Json.json_string k2 ++ ": ") s;
  '(v2, s) ← read_string s;
  s ← strip_prefix ("," ++ Json.newline_indent 2
                        ++ Json.json_string k3 ++ ": ") s;
  '(v3, s) ← read_string s;
  s ← strip_prefix (Json.newline_indent 1 ++ "}") s;
  Some (id, (v1, v2, v3), s).

(** At most [fuel] records, up to the bracket that closes the list. *)
Fixpoint read_rows (k1 k2 k3 : string) (fuel : nat) (s : string)
  : option (list (Z * (string * string * string))) :=
  match fuel with
  | O => None
  | S fuel' =>
      '(r, s) ← read_row k1 k2 k3 s;
      match strip_prefix ("," ++ Json.newline_indent 1) s with
      | Some s' => rs ← read_rows k1 k2 k3 fuel' s'; Some (r :: rs)
      | None =>
          match strip_prefix (Json.newline_indent 0 ++ "]") s with
          | Some EmptyString => Some [r]
          | _ => None
          end
      end
  end.

(** A character of the exported text: printable ASCII or a line feed. *)
Definition text_char (c : ascii) : bool :=
  let n := PyStr.code c in ((n =? 10) || (32 <=? n) && (n <=? 126))%N.

End JsonRead.

(** * Properties *)

(** ** Strings *)

Module PyStrFacts.
Import PyStr.

Lemma truthy_false s : truthy s = false ↔ s = "".
Proof. destruct s; simpl; split; congruence. Qed.

Lemma truthy_true s : truthy s = true ↔ s ≠ "".
Proof. destruct s; simpl; split; congruence. Qed.

Lemma lstrip_starts_clean s : starts_clean (lstrip s).
Proof.
  induction s as [|c s IH]; simpl; [done|].
  destruct (isspace c) eqn:Hc; [done|]. simpl. done.
Qed.

Lemma lstrip_clean s : starts_clean s → lstrip s = s.
Proof. destruct s as [|c s]; simpl; [done|]. by intros ->. Qed.

Lemma rstrip_starts_clean s : starts_clean s → starts_clean (rstrip s).
Proof.
  destruct s as [|c s]; simpl; [done|]. intros Hc.
  destruct (rstrip s); rewrite ?Hc; done.
Qed.

Lemma rstrip_idem s : rstrip (rstrip s) = rstrip s.
Proof.
  induction s as [|c s IH]; simpl; [done|].
  destruct (rstrip s) as [|d t] eqn:Hr.
  - destruct (isspace c) eqn:Hc; simpl; [done|]. by rewrite Hc.
  - change (rstrip (String c (String d t)))
      with (match rstrip (String d t) with
            | EmptyString =>
                if isspace c then EmptyString else String c EmptyString
            | u => String c u
            end).
    rewrite IH. done.
Qed.

Lemma strip_idem s : strip (strip s) = strip s.
Proof.
  unfold strip.
  rewrite (lstrip_clean (rstrip (lstrip s))).
  - apply rstrip_idem.
  - apply rstrip_starts_clean, lstrip_starts_clean.
Qed.

End PyStrFacts.

(** ** Tables *)

Module TableFacts.

Section table.
Context {A : Type}.
Implicit Types (t : table A) (r : Z * A) (rs : list (Z * A)).

#[global] Instance id_ge_trans : Transitive (@id_ge A).
Proof. intros r1 r2 r3; unfold id_ge; lia. Qed.

#[global] Instance id_ge_total : Total (@id_ge A).
Proof. intros r1 r2; unfold id_ge; lia. Qed.

Lemma max_rowid_ge rs r : r ∈ rs → r.1 <= max_rowid rs.
Proof.
  induction rs as [|r' rs IH]; simpl; [by intros ?%elem_of_nil|].
  intros [->|Hin]%elem_of_cons; [lia|]. specialize (IH Hin). lia.
Qed.

Lemma max_rowid_nonneg rs : 0 <= max_rowid rs.
Proof. induction rs; simpl; lia. Qed.

Lemma max_rowid_le rs b : 0 <= b → (∀ r, r ∈ rs → r.1 <= b) → max_rowid rs <= b.
Proof.
  intros Hb. induction rs as [|r' rs IH]; simpl; intros H; [done|].
  apply Z.max_lub; [apply H; left | apply IH; intros; apply H; by right].
Qed.

Lemma next_id_gt_seq t : seq t < next_id t.
Proof. unfold next_id. lia. Qed.

Lemma next_id_gt_rows t r : r ∈ rows t → r.1 < next_id t.
Proof. intros H%max_rowid_ge. unfold next_id. lia. Qed.

Lemma next_id_wf t : wf t → next_id t = seq t + 1.
Proof.
  intros (_ & H0 & Hle). unfold next_id.
  rewrite Forall_forall in Hle.
  rewrite Z.max_l; [done|]. apply max_rowid_le; [done|].
  intros r Hr. by apply Hle.
Qed.

Lemma wf_create : wf (@create A).
Proof.
  split; [constructor|]. split; [done|]. constructor.
Qed.

Lemma wf_delete_all t : wf t → wf (delete_all t).
Proof.
  intros (_ & H0 & _).
  split; [constructor|]. split; [done|]. constructor.
Qed.

Lemma wf_insert t a : wf t → wf (insert t a).
Proof.
  intros (Hasc & H0 & Hle). pose proof (next_id_gt_seq t) as Hgt.
  split; [|split]; simpl.
  - apply StronglySorted_app_2; [|done|repeat constructor].
    intros r1 r2 H1 ->%list_elem_of_singleton. simpl.
    by apply next_id_gt_rows.
  - lia.
  - apply Forall_app. split.
    + eapply Forall_impl; [exact Hle|]. simpl. intros r Hr. lia.
    + apply Forall_singleton. simpl. lia.
Qed.

Lemma asc_inj rs r1 r2 : asc rs → r1 ∈ rs → r2 ∈ rs → r1.1 = r2.1 → r1 = r2.
Proof.
  induction 1 as [|r rs Hs IH Hall]; [by intros ?%elem_of_nil|].
  rewrite Forall_forall in Hall.
  intros [->|H1]%elem_of_cons [->|H2]%elem_of_cons Heq; auto.
  - specialize (Hall _ H2). lia.
  - specialize (Hall _ H1). lia.
Qed.

Lemma asc_reverse rs : asc rs → StronglySorted id_ge (reverse rs).
Proof.
  induction 1 as [|r rs Hs IH Hall]; [constructor|].
  rewrite reverse_cons. apply StronglySorted_app_2; [|done|repeat constructor].
  rewrite Forall_forall in Hall.
  intros r1 r2 H1 ->%list_elem_of_singleton.
  rewrite elem_of_reverse in H1.
  specialize (Hall _ H1). unfold id_ge. lia.
Qed.

Lemma select_desc_Permutation t : select_desc t ≡ₚ rows t.
Proof. apply merge_sort_Permutation. Qed.

Lemma elem_of_select_desc t r : r ∈ select_desc t ↔ r ∈ rows t.
Proof. by rewrite select_desc_Permutation. Qed.

(** On a table in rowid order, [ORDER BY id DESC] reads the rows
    backwards. *)
Lemma select_desc_reverse t : asc (rows t) → select_desc t = reverse (rows t).
Proof.
  intros Hasc. apply (StronglySorted_unique_strong id_ge).
  - intros r1 r2 H1%elem_of_select_desc H2 Ha Hb.
    rewrite elem_of_reverse in H2.
    apply (asc_inj (rows t)); auto. unfold id_ge in *. lia.
  - apply StronglySorted_merge_sort; apply _.
  - by apply asc_reverse.
  - rewrite select_desc_Permutation. by rewrite reverse_Permutation.
Qed.

Lemma select_desc_insert t a :
  wf t → select_desc (insert t a) = (next_id t, a) :: select_desc t.
Proof.
  intros Hwf. pose proof (wf_insert t a Hwf) as (Hasc' & _).
  rewrite select_desc_reverse by done.
  rewrite (select_desc_reverse t) by apply Hwf.
  simpl. by rewrite reverse_snoc.
Qed.

Lemma select_desc_delete_all t : select_desc (delete_all t) = [].
Proof. reflexivity. Qed.

(** Newest first: the ids of [select_desc] decrease strictly. *)
Lemma select_desc_decreasing t :
  wf t → StronglySorted (fun r1 r2 => r2.1 < r1.1) (select_desc t).
Proof.
  intros (Hasc & _). rewrite select_desc_reverse by done.
  induction Hasc as [|r rs Hs IH Hall]; [constructor|].
  rewrite reverse_cons. apply StronglySorted_app_2; [|done|repeat constructor].
  rewrite Forall_forall in Hall.
  intros r1 r2 H1 ->%list_elem_of_singleton.
  rewrite elem_of_reverse in H1. by apply Hall.
Qed.

End table.

End TableFacts.

(** ** The handlers and the pool *)

Import PyStrFacts TableFacts.

(** The submit handler, case by case. *)
Lemma submit_cases conn n u now :
  (PyStr.strip n = "" ∧ submit conn n u now = (InvalidName, conn))
  ∨ (PyStr.strip n ≠ "" ∧ 50 < PyStr.len (PyStr.strip n)
     ∧ submit conn n u now = (NameTooLong, conn))
  ∨ (PyStr.strip n ≠ "" ∧ PyStr.len (PyStr.strip n) <= 50
     ∧ submit conn n u now
       = (Added (PyStr.strip n), add_suggestion conn (PyStr.strip n) u now)).
Proof.
  unfold submit.
  destruct (PyStr.truthy n) eqn:Hn; simpl.
  - destruct (PyStr.truthy (PyStr.strip n)) eqn:Hs; simpl.
    + apply truthy_true in Hs.
      destruct (50 <? PyStr.len (PyStr.strip n)) eqn:Hl.
      * right; left. apply Z.ltb_lt in Hl. done.
      * right; right. apply Z.ltb_ge in Hl. done.
    + left. by apply truthy_false in Hs.
  - left. apply truthy_false in Hn. by subst n.
Qed.

Lemma elem_of_pool_names conn n :
  n ∈ pool_names conn ↔ ∃ r, r ∈ rows (suggestions conn) ∧ name r.2 = n.
Proof.
  unfold pool_names, list_suggestions. rewrite list_elem_of_fmap.
  split; intros (r & H1 & H2).
  - exists r. by rewrite <-elem_of_select_desc.
  - exists r. by rewrite elem_of_select_desc.
Qed.

Lemma elem_of_assigned conn x :
  x ∈ assigned conn true ↔
  ∃ r, r ∈ rows (assignments conn) ∧ PyStr.lower (chosen_name r.2) = x.
Proof.
  unfold assigned, list_assignments.
  rewrite elem_of_list_to_set, list_elem_of_fmap.
  split; intros (r & H1 & H2).
  - exists r. by rewrite <-elem_of_select_desc.
  - exists r. by rewrite elem_of_select_desc.
Qed.

Lemma dict_keys_aux (ks acc : list string) :
  let res := fold_left (fun (acc : list string) k =>
               if decide (k ∈ acc) then acc else (acc ++ [k])%list) ks acc in
  (NoDup acc → NoDup res) ∧ (∀ x, x ∈ res ↔ x ∈ acc ∨ x ∈ ks).
Proof.
  revert acc. induction ks as [|k ks IH]; intros acc; simpl.
  - split; [done|]. intros x. rewrite elem_of_nil. tauto.
  - destruct (decide (k ∈ acc)) as [Hin|Hnin].
    + destruct (IH acc) as [IH1 IH2]. split; [done|].
      intros x. rewrite IH2, elem_of_cons.
      split; [tauto|]. intros [?|[->|?]]; tauto.
    + destruct (IH (acc ++ [k])%list) as [IH1 IH2]. split.
      * intros Hnd. apply IH1. apply NoDup_app. split; [done|].
        split; [|apply NoDup_singleton].
        by intros x Hx ->%list_elem_of_singleton.
      * intros x. rewrite IH2, elem_of_app, list_elem_of_singleton, elem_of_cons.
        tauto.
Qed.

Lemma NoDup_dict_keys ks : NoDup (dict_keys ks).
Proof. apply (dict_keys_aux ks []). constructor. Qed.

Lemma elem_of_dict_keys ks x : x ∈ dict_keys ks ↔ x ∈ ks.
Proof.
  unfold dict_keys. destruct (dict_keys_aux ks []) as [_ H].
  rewrite H, elem_of_nil. tauto.
Qed.

Lemma sorted_Permutation l : PyStr.sorted l ≡ₚ l.
Proof. apply merge_sort_Permutation. Qed.

Lemma sorted_Sorted l : StronglySorted String.le (PyStr.sorted l).
Proof. apply StronglySorted_merge_sort; apply _. Qed.

(** Membership in the pool, for both settings of the duplicates toggle. *)
Lemma elem_of_draw_pool conn u a x :
  x ∈ draw_pool conn u a ↔
  ∃ n, n ∈ pool_names conn ∧ (PyStr.lower n ∉ assigned conn u)
       ∧ (if a then x = n else (x = PyStr.strip n ∧ x ≠ "")).
Proof.
  unfold draw_pool. destruct a.
  - rewrite list_elem_of_filter. split.
    + intros [H1 H2]. by exists x.
    + intros (n & H1 & H2 & ->). done.
  - rewrite sorted_Permutation, elem_of_dict_keys, list_elem_of_fmap.
    split.
    + intros (n & -> & Hf). rewrite list_elem_of_filter in Hf.
      destruct Hf as [[Hne Hni] Hin]. exists n. done.
    + intros (n & H1 & H2 & -> & Hne). exists n. split; [done|].
      apply list_elem_of_filter. done.
Qed.

(** On a database whose names are trimmed, the pool holds stored names
    as they are stored, whatever the toggles. *)
Lemma draw_pool_names_ok conn u a x :
  names_ok conn → x ∈ draw_pool conn u a →
  x ∈ pool_names conn ∧ (PyStr.lower x ∉ assigned conn u) ∧ PyStr.strip x = x.
Proof.
  intros Hok (n & Hn & Hni & Hx)%elem_of_draw_pool.
  pose proof Hn as (r & Hr & <-)%elem_of_pool_names.
  unfold names_ok in Hok. rewrite Forall_forall in Hok.
  destruct (Hok r Hr) as [Hs Hne].
  destruct a.
  - subst x. done.
  - destruct Hx as [-> _]. rewrite Hs. done.
Qed.

(** ** The draw *)

Lemma random_choice_Some r pool :
  pool ≠ [] → ∃ chosen, random_choice r pool = Some chosen ∧ chosen ∈ pool.
Proof.
  destruct pool as [|x pool]; [done|]. intros _.
  unfold random_choice.
  destruct ((x :: pool) !! (r `mod` length (x :: pool))%nat) as [c|] eqn:Hc.
  - exists c. split; [done|]. by eapply list_elem_of_lookup_2.
  - apply lookup_ge_None in Hc.
    pose proof (Nat.mod_upper_bound r (length (x :: pool))) as Hlt.
    simpl in *. lia.
Qed.

(** The pick handler, case by case. *)
Lemma pick_cases conn p u a r now :
  (PyStr.strip p = "" ∧ pick conn p u a r now = (SubjectMissing, conn))
  ∨ (PyStr.strip p ≠ "" ∧ draw_pool conn u a = []
     ∧ pick conn p u a r now = (NoAvailableNames, conn))
  ∨ (PyStr.strip p ≠ "" ∧
     ∃ chosen, chosen ∈ draw_pool conn u a
       ∧ random_choice r (draw_pool conn u a) = Some chosen
       ∧ pick conn p u a r now
         = (Chosen chosen, add_assignment conn (PyStr.strip p) chosen now)).
Proof.
  unfold pick.
  destruct (PyStr.truthy (PyStr.strip p)) eqn:Hp; simpl.
  - apply truthy_true in Hp. right.
    destruct (decide (draw_pool conn u a = [])) as [He|Hne].
    + left. rewrite bool_decide_eq_true_2 by done. done.
    + right. rewrite bool_decide_eq_false_2 by done.
      destruct (random_choice_Some r _ Hne) as (c & Hc & Hin).
      rewrite Hc. split; [done|]. by exists c.
  - left. by apply truthy_false in Hp.
Qed.

(** ** The contract of the draw (claims C1, C9, C10) *)

(** C1: on a database whose stored names are trimmed, a draw for a
    subject that passed the caller's check (trimmed, not empty) either
    appends exactly one assignment, made of that subject, the chosen
    name and the time read from the clock, and returns the chosen name,
    or finds the pool empty, reports it and leaves both tables as they
    were. *)
Theorem draw_appends_one_or_reports_empty conn subject u a r now :
  names_ok conn → PyStr.strip subject = subject → subject ≠ "" →
  draw_contract (fun p => p) conn subject u a r now.
Proof.
  intros Hok Hs Hne. unfold draw_contract.
  destruct (pick_cases conn subject u a r now)
    as [(Hb & _)|[(_ & He & ->)|(_ & c & Hin & _ & ->)]];
    [congruence|by right|].
  left. exists c. simpl.
  destruct (draw_pool_names_ok conn u a c Hok Hin) as (_ & _ & Hc).
  by rewrite strip_idem, Hs, Hc.
Qed.

Lemma draw_appends_one_or_reports_empty_witness :
  draw_contract (fun p => p) jar3 "Eevee" true false 0 "2024-05-02T09:00:00".
Proof.
  apply (draw_appends_one_or_reports_empty jar3 "Eevee" true false 0).
  - apply (bool_decide_unpack _). vm_compute. exact I.
  - reflexivity.
  - discriminate.
Defined.

Example draw_at_jar3 :
  pick jar3 "Eevee" true false 0 "2024-05-02T09:00:00"
  = (Chosen "Blaze",
     mk_db (suggestions jar3)
           (mk [(1, mk_assignment "Eevee" "Blaze" "2024-05-02T09:00:00")] 1))
  ∧ pick (clear_suggestions jar3) "Eevee" true false 0 "2024-05-02T09:00:00"
    = (NoAvailableNames, clear_suggestions jar3).
Proof. split; reflexivity. Qed.

(** C10: a draw whose subject is blank writes nothing and reports the
    missing subject, whatever the pool holds, the empty pool included:
    the subject is checked first. *)
Theorem blank_subject_first conn p u a r now :
  PyStr.strip p = "" → pick conn p u a r now = (SubjectMissing, conn).
Proof.
  intros Hp. unfold pick. by rewrite Hp.
Qed.

Lemma blank_subject_first_witness :
  draw_pool get_conn true false = []
  ∧ pick get_conn "   " true false 7 "2024-05-02T09:00:00"
    = (SubjectMissing, get_conn).
Proof.
  split; [reflexivity|].
  apply (blank_subject_first get_conn "   " true false 7). reflexivity.
Defined.

(** The row a successful draw appends. *)
Lemma pick_chosen_record conn p u a r now chosen conn' :
  names_ok conn →
  pick conn p u a r now = (Chosen chosen, conn') →
  ∃ id rec,
    rows (assignments conn') = rows (assignments conn) ++ [(id, rec)]
    ∧ chosen_name rec = chosen
    ∧ ∃ s, s ∈ rows (suggestions conn) ∧ name s.2 = chosen_name rec.
Proof.
  intros Hok Hpick.
  destruct (pick_cases conn p u a r now)
    as [(_ & E)|[(_ & _ & E)|(_ & c & Hin & _ & E)]];
    rewrite E in Hpick; simplify_eq.
  destruct (draw_pool_names_ok conn u a chosen Hok Hin) as (Hn & _ & Hc).
  apply elem_of_pool_names in Hn as (s & Hs & Hname).
  eexists _, _. simpl. split; [done|]. simpl. split; [done|].
  exists s. by rewrite Hc.
Qed.

(** C9: the name a successful draw writes in the assignments table is,
    character for character, the [name] of a row of the suggestions
    table, and it is the name the draw returned. *)
Theorem chosen_name_verbatim conn p u a r now chosen conn' :
  names_ok conn →
  pick conn p u a r now = (Chosen chosen, conn') →
  ∃ id rec,
    rows (assignments conn') = rows (assignments conn) ++ [(id, rec)]
    ∧ chosen_name rec = chosen
    ∧ ∃ s, s ∈ rows (suggestions conn) ∧ name s.2 = chosen_name rec.
Proof. apply pick_chosen_record. Qed.

Lemma chosen_name_verbatim_witness :
  ∃ id rec,
    rows (assignments (pick jar3 "Eevee" false true 4 "2024-05-02T09:00:00").2)
    = rows (assignments jar3) ++ [(id, rec)]
    ∧ chosen_name rec = "luna"
    ∧ ∃ s, s ∈ rows (suggestions jar3) ∧ name s.2 = chosen_name rec.
Proof.
  apply (chosen_name_verbatim jar3 "Eevee" false true 4 "2024-05-02T09:00:00").
  - apply (bool_decide_unpack _). vm_compute. exact I.
  - vm_compute. reflexivity.
Defined.

(** ** Submitting a name (claim C8) *)

(** C8: a name that is empty once trimmed, or longer than 50 characters
    once trimmed, is refused and the database is left as it was; any
    other name adds exactly one row to the suggestions table, whose name
    is the trimmed input, which is not empty. *)
Theorem submit_validates conn n u now :
  let res := submit conn n u now in
  ((PyStr.strip n = "" ∨ 50 < PyStr.len (PyStr.strip n))
   ∧ is_validation_error res.1 ∧ res.2 = conn)
  ∨ ((PyStr.strip n ≠ "" ∧ PyStr.len (PyStr.strip n) <= 50)
     ∧ res.1 = Added (PyStr.strip n)
     ∧ assignments res.2 = assignments conn
     ∧ rows (suggestions res.2)
       = rows (suggestions conn)
           ++ [(next_id (suggestions conn),
                mk_suggestion (PyStr.strip n) (PyStr.strip u) now)]).
Proof.
  simpl.
  destruct (submit_cases conn n u now)
    as [(Hb & ->)|[(Hne & Hl & ->)|(Hne & Hl & ->)]]; simpl.
  - left. split; [by left|]. split; [by left|done].
  - left. split; [by right|]. split; [by right|done].
  - right. split; [done|]. split; [done|]. split; [done|].
    by rewrite strip_idem.
Qed.

Example submit_blank :
  submit jar3 "  " "brock" "2024-05-01T11:00:00" = (InvalidName, jar3).
Proof. reflexivity. Qed.

Example submit_too_long :
  submit jar3 "  Supercalifragilisticexpialidocious-the-Magnificent-II  " "brock"
         "2024-05-01T11:00:00" = (NameTooLong, jar3).
Proof. reflexivity. Qed.

Example submit_trims :
  (fun r => name r.2)
    <$> rows (suggestions (submit jar3 "  Sparky " "brock" "2024-05-01T11:00:00").2)
  = ["Luna"; "luna"; "Blaze"; "Sparky"].
Proof. reflexivity. Qed.

(** ** The pool without duplicates (claims C3, C4) *)

#[local] Instance string_le_antisymm : AntiSymm (=) String.le.
Proof. apply _. Qed.

(** A sorted list without repetitions is determined by its elements. *)
Lemma sorted_NoDup_unique (l1 l2 : list string) :
  StronglySorted String.le l1 → NoDup l1 →
  StronglySorted String.le l2 → NoDup l2 →
  (∀ x, x ∈ l1 ↔ x ∈ l2) → l1 = l2.
Proof.
  intros Hs1 Hn1 Hs2 Hn2 Heq.
  apply (StronglySorted_unique String.le); [done..|].
  by apply NoDup_Permutation.
Qed.

Lemma draw_pool_collapsed_Sorted conn u :
  StronglySorted String.le (draw_pool conn u false).
Proof. apply sorted_Sorted. Qed.

Lemma draw_pool_collapsed_NoDup conn u : NoDup (draw_pool conn u false).
Proof.
  unfold draw_pool. rewrite sorted_Permutation. apply NoDup_dict_keys.
Qed.

Lemma elem_of_draw_pool_collapsed conn u x :
  names_ok conn →
  x ∈ draw_pool conn u false ↔
  x ∈ pool_names conn ∧ PyStr.lower x ∉ assigned conn u.
Proof.
  intros Hok. split.
  - intros H. by destruct (draw_pool_names_ok conn u false x Hok H) as (? & ? & _).
  - intros [Hin Hni]. apply elem_of_draw_pool. exists x.
    pose proof Hin as (r & Hr & <-)%elem_of_pool_names.
    unfold names_ok in Hok. rewrite Forall_forall in Hok.
    destruct (Hok r Hr) as [Hs Hne]. by rewrite Hs.
Qed.

Lemma not_assigned_iff conn u x :
  PyStr.lower x ∉ assigned conn u ↔ ¬ (u = true ∧ taken conn x).
Proof.
  destruct u.
  - rewrite elem_of_assigned. unfold taken. split.
    + intros Hn [_ H]. by apply Hn.
    + intros Hn H. apply Hn. by split.
  - unfold assigned. split.
    + by intros _ [? _].
    + intros _. apply not_elem_of_empty.
Qed.

Lemma elem_of_collapsed_rows conn u x :
  names_ok conn →
  x ∈ draw_pool conn u false ↔ suggested conn x ∧ ¬ (u = true ∧ taken conn x).
Proof.
  intros Hok.
  by rewrite elem_of_draw_pool_collapsed, elem_of_pool_names, not_assigned_iff.
Qed.

(** C4: with duplicates collapsed, the pool is the sorted list, without
    repetition, of the names of the rows of the suggestions table that
    the unique-names exclusion leaves, that is, with the toggle on, of
    those that are not, up to case, the chosen name of a row of the
    assignments table; so the pool and the count shown are the same for
    any two databases whose tables hold the same names and the same
    chosen names. *)
Theorem collapsed_pool_sorted_distinct conn u :
  names_ok conn →
  StronglySorted String.le (draw_pool conn u false)
  ∧ NoDup (draw_pool conn u false)
  ∧ (∀ x, x ∈ draw_pool conn u false ↔
          suggested conn x ∧ ¬ (u = true ∧ taken conn x))
  ∧ (∀ conn',
        names_ok conn' →
        (∀ x, suggested conn' x ↔ suggested conn x) →
        (∀ x, taken conn' x ↔ taken conn x) →
        draw_pool conn' u false = draw_pool conn u false
        ∧ length (draw_pool conn' u false) = length (draw_pool conn u false)).
Proof.
  intros Hok.
  split; [apply draw_pool_collapsed_Sorted|].
  split; [apply draw_pool_collapsed_NoDup|].
  split; [intros x; by apply elem_of_collapsed_rows|].
  intros conn' Hok' Hnames Hasg.
  assert (draw_pool conn' u false = draw_pool conn u false) as E.
  { apply sorted_NoDup_unique;
      auto using draw_pool_collapsed_Sorted, draw_pool_collapsed_NoDup.
    intros x. rewrite !elem_of_collapsed_rows by done.
    by rewrite Hnames, Hasg. }
  by rewrite E.
Qed.

Lemma collapsed_pool_sorted_distinct_witness :
  suggested jar_used "Blaze" ∧ taken jar_used "Blaze"
  ∧ ("Blaze" ∉ draw_pool jar_used true false)
  ∧ "Abra" ∈ draw_pool jar_used true false
  ∧ NoDup (draw_pool jar_used true false).
Proof.
  destruct (collapsed_pool_sorted_distinct jar_used true)
    as (_ & Hnd & Hmem & _).
  { apply (bool_decide_unpack _). vm_compute. exact I. }
  assert (suggested jar_used "Blaze") as Hs.
  { eexists. split;
      [apply list_elem_of_lookup; exists 2%nat; reflexivity|reflexivity]. }
  assert (taken jar_used "Blaze") as Ht.
  { eexists. split;
      [apply list_elem_of_lookup; exists 0%nat; reflexivity|reflexivity]. }
  split; [exact Hs|]. split; [exact Ht|]. split; [|split; [|exact Hnd]].
  - intros [_ Hn]%Hmem. apply Hn. by split.
  - apply Hmem. split.
    + eexists. split;
        [apply list_elem_of_lookup; exists 4%nat; reflexivity|reflexivity].
    + intros [_ (a & Ha & Hl)].
      apply list_elem_of_lookup in Ha as [[|i] Hi]; vm_compute in Hi;
        [|discriminate].
      injection Hi as <-. vm_compute in Hl. discriminate.
Defined.

Example collapsed_pool_at_jar_used :
  (fun s => name s.2) <$> rows (suggestions jar_used)
  = ["Luna"; "luna"; "Blaze"; "Blaze"; "Abra"]
  ∧ (fun a => chosen_name a.2) <$> rows (assignments jar_used) = ["Blaze"]
  ∧ draw_pool jar_used false false = ["Abra"; "Blaze"; "Luna"; "luna"]
  ∧ draw_pool jar_used true false = ["Abra"; "Luna"; "luna"].
Proof. repeat split. Qed.

Lemma pool_names_rows conn n :
  n ∈ pool_names conn ↔ n ∈ (fun r => name r.2) <$> rows (suggestions conn).
Proof.
  rewrite elem_of_pool_names, list_elem_of_fmap. split.
  - intros (r & Hr & <-). by exists r.
  - intros (r & -> & Hr). by exists r.
Qed.

Lemma assigned_no_assignments conn u :
  rows (assignments conn) = [] → assigned conn u = ∅.
Proof.
  intros He. destruct u; [|done].
  unfold assigned, list_assignments, select_desc. by rewrite He.
Qed.

(** C3, as stated, fails: "luna" is in the pool beside "Luna". *)
Lemma luna_offered_separately :
  (fun r => name r.2) <$> rows (suggestions jar3) = ["Luna"; "luna"; "Blaze"]
  ∧ rows (assignments jar3) = []
  ∧ "luna" ∈ draw_pool jar3 true false
  ∧ ¬ offers_exactly (draw_pool jar3 true false) ["Blaze"; "Luna"].
Proof.
  split; [reflexivity|]. split; [reflexivity|].
  assert ("luna" ∈ draw_pool jar3 true false) as Hin.
  { apply (bool_decide_unpack _). vm_compute. exact I. }
  split; [done|]. intros H. apply H in Hin.
  revert Hin. apply (bool_decide_unpack _). vm_compute. exact I.
Qed.

(** C3 (amended): with "Luna", "luna" and "Blaze" in the suggestions
    table and no assignment, the pool of a draw with unique names and
    duplicates collapsed is exactly "Blaze", "Luna", "luna", in this
    order: names that differ in case are different names. *)
Theorem luna_pool conn :
  (fun r => name r.2) <$> rows (suggestions conn) = ["Luna"; "luna"; "Blaze"] →
  rows (assignments conn) = [] →
  draw_pool conn true false = ["Blaze"; "Luna"; "luna"].
Proof.
  intros Hnames Hasg.
  apply sorted_NoDup_unique;
    [apply draw_pool_collapsed_Sorted | apply draw_pool_collapsed_NoDup
    | apply (bool_decide_unpack _); vm_compute; exact I
    | apply (bool_decide_unpack _); vm_compute; exact I |].
  intros x. rewrite elem_of_draw_pool.
  rewrite (assigned_no_assignments conn true Hasg). split.
  - intros (n & Hn & _ & -> & _).
    apply pool_names_rows in Hn. rewrite Hnames in Hn.
    repeat (apply elem_of_cons in Hn as [->|Hn]);
      [| | |by apply elem_of_nil in Hn];
      apply (bool_decide_unpack _); vm_compute; exact I.
  - intros Hx. exists x. rewrite pool_names_rows, Hnames.
    repeat (apply elem_of_cons in Hx as [->|Hx]);
      [| | |by apply elem_of_nil in Hx];
      (split; [apply (bool_decide_unpack _); vm_compute; exact I|]);
      (split; [apply not_elem_of_empty|]); (split; [reflexivity|discriminate]).
Qed.

Lemma luna_pool_witness : draw_pool jar3 true false = ["Blaze"; "Luna"; "luna"].
Proof. apply (luna_pool jar3); reflexivity. Defined.

(** ** The pool with duplicates, and the chances of a name (claim C5) *)

Lemma choice_outcomes_pool pool : choice_outcomes pool = Some <$> pool.
Proof.
  unfold choice_outcomes. apply list_eq. intros i.
  rewrite !list_lookup_fmap.
  destruct (decide (i < length pool)%nat) as [Hlt|Hge].
  - rewrite lookup_seq_lt by done. simpl.
    unfold random_choice. destruct pool as [|y pool]; [simpl in Hlt; lia|].
    rewrite Nat.mod_small by done.
    destruct (lookup_lt_is_Some_2 (y :: pool) i Hlt) as [z Hz].
    by rewrite Hz.
  - rewrite (lookup_ge_None_2 pool) by lia.
    rewrite (lookup_ge_None_2 (List.seq 0 (length pool)))
      by (rewrite length_seq; lia).
    done.
Qed.

Lemma ways_multiplicity x pool : ways x pool = multiplicity x pool.
Proof.
  unfold ways, multiplicity. rewrite choice_outcomes_pool.
  induction pool as [|y pool IH]; [done|].
  rewrite fmap_cons, !filter_cons.
  destruct (decide (y = x)) as [->|Hne].
  - rewrite decide_True by done. simpl. by rewrite IH.
  - rewrite decide_False by congruence. done.
Qed.

Lemma filter_all {A} (P : A → Prop) `{!∀ x, Decision (P x)} (l : list A) :
  (∀ x, P x) → filter P l = l.
Proof.
  intros HP. induction l as [|y l IH]; [done|].
  rewrite filter_cons, decide_True by apply HP. by rewrite IH.
Qed.

Lemma length_filter_fmap {A B} (f : A → B) (Q : B → Prop)
    `{!∀ y, Decision (Q y)} (l : list A) :
  length (filter Q (f <$> l)) = length (filter (fun x => Q (f x)) l).
Proof.
  induction l as [|x l IH]; [done|].
  rewrite fmap_cons, !filter_cons. destruct (decide (Q (f x))); simpl; by rewrite IH.
Qed.

Lemma draw_pool_all conn : draw_pool conn false true = pool_names conn.
Proof.
  unfold draw_pool. simpl. apply filter_all. intros n. apply not_elem_of_empty.
Qed.

Lemma draw_pool_all_rows conn :
  draw_pool conn false true ≡ₚ (fun s => name s.2) <$> rows (suggestions conn).
Proof.
  rewrite draw_pool_all. unfold pool_names, list_suggestions.
  by rewrite select_desc_Permutation.
Qed.

Lemma multiplicity_times_suggested conn x :
  multiplicity x (draw_pool conn false true) = times_suggested conn x.
Proof.
  unfold multiplicity, times_suggested.
  rewrite draw_pool_all_rows. apply length_filter_fmap.
Qed.

(** The draw returns the name [random.choice] takes from the pool. *)
Lemma pick_chosen_iff conn p u a r now x :
  PyStr.strip p ≠ "" →
  (pick conn p u a r now).1 = Chosen x ↔
  random_choice r (draw_pool conn u a) = Some x.
Proof.
  intros Hp.
  destruct (pick_cases conn p u a r now)
    as [(Hb & _)|[(_ & He & ->)|(_ & c & Hin & Hc & ->)]]; [done| |]; simpl.
  - rewrite He. simpl. split; discriminate.
  - rewrite Hc. split; intros [= ->]; done.
Qed.

Lemma draw_ways_multiplicity conn p now x :
  PyStr.strip p ≠ "" →
  draw_ways conn p now x = multiplicity x (draw_pool conn false true).
Proof.
  intros Hp. rewrite <-ways_multiplicity.
  unfold draw_ways, ways, choice_outcomes. rewrite length_filter_fmap.
  f_equal. apply list_filter_iff. intros r. by apply pick_chosen_iff.
Qed.

(** C5: with duplicates kept and no exclusion, the pool has one entry
    for each row of the suggestions table, and a click on the draw
    button returns, and records, the entry at the index the random
    source gives below the length of the pool; so of the [n] equally
    likely indices exactly [k] make the draw return a name that [k] of
    the [n] rows hold: its chance is [k/n], and a name submitted three
    times is three times as likely to be drawn as a name submitted
    once. *)
Theorem duplicates_weigh_the_draw conn p now :
  PyStr.strip p ≠ "" →
  draw_pool conn false true ≡ₚ (fun s => name s.2) <$> rows (suggestions conn)
  ∧ length (draw_pool conn false true) = length (rows (suggestions conn))
  ∧ (∀ r, rows (suggestions conn) ≠ [] →
          ∃ chosen,
            draw_pool conn false true
              !! (r `mod` length (rows (suggestions conn)))%nat = Some chosen
            ∧ pick conn p false true r now
              = (Chosen chosen,
                 add_assignment conn (PyStr.strip p) chosen now))
  ∧ (∀ x, draw_ways conn p now x = times_suggested conn x
          ∧ draw_probability conn p now x
            = Qdiv (inject_Z (Z.of_nat (times_suggested conn x)))
                   (inject_Z (Z.of_nat (length (rows (suggestions conn))))))
  ∧ (∀ x y, times_suggested conn x = 3%nat →
            times_suggested conn y = 1%nat →
            Qeq (draw_probability conn p now x)
                (Qmult (inject_Z 3) (draw_probability conn p now y))).
Proof.
  intros Hp.
  pose proof (draw_pool_all_rows conn) as Hperm.
  assert (length (draw_pool conn false true) = length (rows (suggestions conn)))
    as Hlen by (by rewrite Hperm, length_fmap).
  assert (∀ x, draw_ways conn p now x = times_suggested conn x) as Hways.
  { intros x. by rewrite draw_ways_multiplicity, multiplicity_times_suggested. }
  split; [done|]. split; [done|]. split.
  { intros r Hne. rewrite <-Hlen.
    assert (draw_pool conn false true ≠ []) as Hpool.
    { intros He. rewrite He in Hlen. simpl in Hlen.
      by destruct (rows (suggestions conn)). }
    destruct (pick_cases conn p false true r now)
      as [(Hb & _)|[(_ & He & _)|(_ & c & _ & Hc & Hpick)]]; [done..|].
    exists c. split; [|done].
    unfold random_choice in Hc. by destruct (draw_pool conn false true). }
  split.
  { intros x. split; [done|]. unfold draw_probability. by rewrite Hways, Hlen. }
  intros x y Hx Hy. unfold draw_probability.
  rewrite !Hways, Hx, Hy. unfold Qdiv. simpl. ring.
Qed.

Lemma duplicates_weigh_the_draw_witness :
  draw_ways jar_aab "Eevee" "2024-05-02T09:00:00" "A" = 2%nat
  ∧ draw_probability jar_aab "Eevee" "2024-05-02T09:00:00" "A"
    = Qdiv (inject_Z 2) (inject_Z 3).
Proof.
  destruct (duplicates_weigh_the_draw jar_aab "Eevee" "2024-05-02T09:00:00")
    as (_ & _ & _ & H & _).
  - vm_compute. discriminate.
  - exact (H "A").
Defined.

Example two_thirds_one_third :
  draw_pool jar_aab false true = ["B"; "A"; "A"]
  ∧ (pick jar_aab "Eevee" false true 0 "2024-05-02T09:00:00").1 = Chosen "B"
  ∧ (pick jar_aab "Eevee" false true 1 "2024-05-02T09:00:00").1 = Chosen "A"
  ∧ (pick jar_aab "Eevee" false true 2 "2024-05-02T09:00:00").1 = Chosen "A"
  ∧ Qeq (draw_probability jar_aab "Eevee" "2024-05-02T09:00:00" "A") (Qmake 2 3)
  ∧ Qeq (draw_probability jar_aab "Eevee" "2024-05-02T09:00:00" "B") (Qmake 1 3).
Proof. repeat split. Qed.

(** ** What a session keeps (claims C2, C6) *)

Lemma names_ok_step conn o : names_ok conn → names_ok (step conn o).
Proof.
  intros Hok. destruct o as [n u now|p u a r now| |]; simpl.
  - destruct (submit_cases conn n u now)
      as [(_ & ->)|[(_ & _ & ->)|(Hne & _ & ->)]]; simpl; try done.
    unfold names_ok; simpl. apply Forall_app. split; [done|].
    apply Forall_singleton. simpl. by rewrite !strip_idem.
  - destruct (pick_cases conn p u a r now)
      as [(_ & ->)|[(_ & _ & ->)|(_ & c & _ & _ & ->)]]; simpl; done.
  - constructor.
  - done.
Qed.

Lemma names_ok_run ops conn : names_ok conn → names_ok (run ops conn).
Proof.
  revert conn. induction ops as [|o ops IH]; intros conn Hok; simpl; [done|].
  by apply IH, names_ok_step.
Qed.

(** Only the clearing of a table takes rows out of it. *)
Lemma step_keeps_assignments conn o :
  o ≠ ClearAssignments →
  rows (assignments conn) `prefix_of` rows (assignments (step conn o)).
Proof.
  intros Hne. destruct o as [n u now|p u a r now| |]; simpl; [| |done|done].
  - destruct (submit_cases conn n u now)
      as [(_ & ->)|[(_ & _ & ->)|(_ & _ & ->)]]; done.
  - destruct (pick_cases conn p u a r now)
      as [(_ & ->)|[(_ & _ & ->)|(_ & c & _ & _ & ->)]]; simpl; try done.
    by apply prefix_app_r.
Qed.

Lemma step_keeps_suggestions conn o :
  o ≠ ClearSuggestions →
  rows (suggestions conn) `prefix_of` rows (suggestions (step conn o)).
Proof.
  intros Hne. destruct o as [n u now|p u a r now| |]; simpl; [| |done|done].
  - destruct (submit_cases conn n u now)
      as [(_ & ->)|[(_ & _ & ->)|(_ & _ & ->)]]; simpl; try done.
    by apply prefix_app_r.
  - destruct (pick_cases conn p u a r now)
      as [(_ & ->)|[(_ & _ & ->)|(_ & c & _ & _ & ->)]]; done.
Qed.

Lemma run_keeps_assignments ops conn :
  Forall (fun o => o ≠ ClearAssignments) ops →
  rows (assignments conn) `prefix_of` rows (assignments (run ops conn)).
Proof.
  intros Hall. revert conn.
  induction Hall as [|o ops Ho Hall IH]; intros conn; simpl; [done|].
  etrans; [by apply step_keeps_assignments|apply IH].
Qed.

Lemma run_keeps_suggestions ops conn :
  Forall (fun o => o ≠ ClearSuggestions) ops →
  rows (suggestions conn) `prefix_of` rows (suggestions (run ops conn)).
Proof.
  intros Hall. revert conn.
  induction Hall as [|o ops Ho Hall IH]; intros conn; simpl; [done|].
  etrans; [by apply step_keeps_suggestions|apply IH].
Qed.

(** C2: after a draw has returned a name and recorded it, and for as
    long as the assignments table is not cleared, no draw with unique
    names returns a name that equals the recorded one up to case. *)
Theorem unique_draw_never_repeats
    conn p1 u1 a1 r1 now1 c1 conn1 ops p2 a2 r2 now2 c2 conn2 :
  names_ok conn →
  pick conn p1 u1 a1 r1 now1 = (Chosen c1, conn1) →
  Forall (fun o => o ≠ ClearAssignments) ops →
  pick (run ops conn1) p2 true a2 r2 now2 = (Chosen c2, conn2) →
  (∃ id rec, (id, rec) ∈ rows (assignments (run ops conn1))
             ∧ chosen_name rec = c1)
  ∧ PyStr.lower c2 ≠ PyStr.lower c1.
Proof.
  intros Hok Hp1 Hops Hp2.
  destruct (pick_chosen_record _ _ _ _ _ _ _ _ Hok Hp1)
    as (id & rec & Hrows & Hrec & _).
  assert ((id, rec) ∈ rows (assignments (run ops conn1))) as Hin.
  { eapply elem_of_prefix; [|by apply run_keeps_assignments].
    rewrite Hrows. apply elem_of_app. right. by apply list_elem_of_singleton. }
  split; [by exists id, rec|].
  assert (names_ok conn1) as Hok1.
  { change conn1 with (Chosen c1, conn1).2. rewrite <-Hp1.
    apply (names_ok_step conn (Pick p1 u1 a1 r1 now1) Hok). }
  pose proof (names_ok_run ops conn1 Hok1) as Hok2.
  destruct (pick_cases (run ops conn1) p2 true a2 r2 now2)
    as [(_ & E)|[(_ & _ & E)|(_ & c & Hc & _ & E)]];
    rewrite E in Hp2; simplify_eq.
  destruct (draw_pool_names_ok _ _ _ _ Hok2 Hc) as (_ & Hni & _).
  intros Heq. apply Hni. apply elem_of_assigned.
  exists (id, rec). split; [done|]. simpl. by rewrite Heq.
Qed.

Lemma unique_draw_never_repeats_witness :
  (∃ id rec,
      (id, rec)
        ∈ rows (assignments
                  (run [Submit "BLAZE" "gary" "2024-05-02T09:05:00";
                        Pick "Abra" false true 1 "2024-05-02T09:06:00"]
                       (pick jar3 "Eevee" true false 0 "2024-05-02T09:00:00").2))
      ∧ chosen_name rec = "Blaze")
  ∧ PyStr.lower "luna" ≠ PyStr.lower "Blaze".
Proof.
  apply (unique_draw_never_repeats
           jar3 "Eevee" true false 0%nat "2024-05-02T09:00:00" "Blaze"
           (pick jar3 "Eevee" true false 0 "2024-05-02T09:00:00").2
           [Submit "BLAZE" "gary" "2024-05-02T09:05:00";
            Pick "Abra" false true 1 "2024-05-02T09:06:00"]
           "Mew" true 0%nat "2024-05-02T09:10:00" "luna"
           (pick (run [Submit "BLAZE" "gary" "2024-05-02T09:05:00";
                       Pick "Abra" false true 1 "2024-05-02T09:06:00"]
                      (pick jar3 "Eevee" true false 0 "2024-05-02T09:00:00").2)
                 "Mew" true true 0 "2024-05-02T09:10:00").2).
  - apply (bool_decide_unpack _). vm_compute. exact I.
  - vm_compute. reflexivity.
  - repeat constructor; discriminate.
  - vm_compute. reflexivity.
Defined.

Lemma tables_ok_get_conn : tables_ok get_conn.
Proof. split; apply wf_create. Qed.

Lemma tables_ok_add_suggestion conn n u now :
  tables_ok conn → tables_ok (add_suggestion conn n u now).
Proof. intros [Hs Ha]. split; [by apply wf_insert|done]. Qed.

Lemma tables_ok_add_assignment conn p c now :
  tables_ok conn → tables_ok (add_assignment conn p c now).
Proof. intros [Hs Ha]. split; [done|by apply wf_insert]. Qed.

Lemma tables_ok_step conn o : tables_ok conn → tables_ok (step conn o).
Proof.
  intros Hok. destruct o as [n u now|p u a r now| |]; simpl.
  - destruct (submit_cases conn n u now)
      as [(_ & ->)|[(_ & _ & ->)|(_ & _ & ->)]]; simpl; try done.
    by apply tables_ok_add_suggestion.
  - destruct (pick_cases conn p u a r now)
      as [(_ & ->)|[(_ & _ & ->)|(_ & c & _ & _ & ->)]]; simpl; try done.
    by apply tables_ok_add_assignment.
  - destruct Hok as [Hs Ha]. split; [by apply wf_delete_all|done].
  - destruct Hok as [Hs Ha]. split; [done|by apply wf_delete_all].
Qed.

Lemma tables_ok_run ops conn : tables_ok conn → tables_ok (run ops conn).
Proof.
  revert conn. induction ops as [|o ops IH]; intros conn Hok; simpl; [done|].
  by apply IH, tables_ok_step.
Qed.

Lemma list_add_suggestions conn calls :
  tables_ok conn →
  tables_ok (add_suggestions conn calls)
  ∧ list_suggestions conn `suffix_of` list_suggestions (add_suggestions conn calls)
  ∧ snd <$> list_suggestions (add_suggestions conn calls)
    = reverse (suggestion_of <$> calls) ++ (snd <$> list_suggestions conn).
Proof.
  revert conn. induction calls as [|[[n u] now] calls IH]; intros conn Hok.
  - done.
  - change (add_suggestions conn ((n, u, now) :: calls))
      with (add_suggestions (add_suggestion conn n u now) calls).
    destruct (IH (add_suggestion conn n u now)) as (Hok' & Hsuf & Heq);
      [by apply tables_ok_add_suggestion|].
    assert (list_suggestions (add_suggestion conn n u now)
            = (next_id (suggestions conn),
               mk_suggestion (PyStr.strip n) (PyStr.strip u) now)
                :: list_suggestions conn) as E.
    { apply select_desc_insert, Hok. }
    split; [done|]. split.
    + etrans; [|exact Hsuf]. rewrite E. by apply suffix_cons_r.
    + rewrite Heq, E, !fmap_cons, reverse_cons. simpl.
      by rewrite <-app_assoc.
Qed.

Lemma list_add_assignments conn calls :
  tables_ok conn →
  tables_ok (add_assignments conn calls)
  ∧ list_assignments conn `suffix_of` list_assignments (add_assignments conn calls)
  ∧ snd <$> list_assignments (add_assignments conn calls)
    = reverse (assignment_of <$> calls) ++ (snd <$> list_assignments conn).
Proof.
  revert conn. induction calls as [|[[p ch] now] calls IH]; intros conn Hok.
  - done.
  - change (add_assignments conn ((p, ch, now) :: calls))
      with (add_assignments (add_assignment conn p ch now) calls).
    destruct (IH (add_assignment conn p ch now)) as (Hok' & Hsuf & Heq);
      [by apply tables_ok_add_assignment|].
    assert (list_assignments (add_assignment conn p ch now)
            = (next_id (assignments conn),
               mk_assignment (PyStr.strip p) (PyStr.strip ch) now)
                :: list_assignments conn) as E.
    { apply select_desc_insert, Hok. }
    split; [done|]. split.
    + etrans; [|exact Hsuf]. rewrite E. by apply suffix_cons_r.
    + rewrite Heq, E, !fmap_cons, reverse_cons. simpl.
      by rewrite <-app_assoc.
Qed.

Lemma rows_prefix_list_suffix {A} (t1 t2 : table A) :
  wf t1 → wf t2 → rows t1 `prefix_of` rows t2 →
  select_desc t1 `suffix_of` select_desc t2.
Proof.
  intros [H1 _] [H2 _] Hpre. rewrite !select_desc_reverse by done.
  by apply prefix_suffix_reverse.
Qed.

(** Every state a session reaches from a new database is well formed. *)
Lemma db_ok_reachable ops : db_ok (run ops get_conn).
Proof.
  split; [apply tables_ok_run, tables_ok_get_conn|].
  apply names_ok_run. constructor.
Qed.

(** C6: after any run of appends to either table, the listing gives back
    every appended record, the last appended first, in front of the
    listing from before, with ids that decrease strictly; no step of a
    session other than the clearing of a table takes a row out of its
    listing or moves it, and clearing empties it. *)
Theorem list_all_newest_first conn sugs asgs ops :
  tables_ok conn →
  (snd <$> list_suggestions (add_suggestions conn sugs)
   = reverse (suggestion_of <$> sugs) ++ (snd <$> list_suggestions conn)
   ∧ list_suggestions conn `suffix_of` list_suggestions (add_suggestions conn sugs)
   ∧ newest_first (list_suggestions (add_suggestions conn sugs)))
  ∧ (snd <$> list_assignments (add_assignments conn asgs)
     = reverse (assignment_of <$> asgs) ++ (snd <$> list_assignments conn)
     ∧ list_assignments conn `suffix_of` list_assignments (add_assignments conn asgs)
     ∧ newest_first (list_assignments (add_assignments conn asgs)))
  ∧ (Forall (fun o => o ≠ ClearSuggestions) ops →
     list_suggestions conn `suffix_of` list_suggestions (run ops conn))
  ∧ (Forall (fun o => o ≠ ClearAssignments) ops →
     list_assignments conn `suffix_of` list_assignments (run ops conn))
  ∧ newest_first (list_suggestions (run ops conn))
  ∧ newest_first (list_assignments (run ops conn))
  ∧ list_suggestions (clear_suggestions conn) = []
  ∧ list_assignments (clear_assignments conn) = [].
Proof.
  intros Hok.
  destruct (list_add_suggestions conn sugs Hok) as (Hoks & Hsufs & Heqs).
  destruct (list_add_assignments conn asgs Hok) as (Hoka & Hsufa & Heqa).
  pose proof (tables_ok_run ops conn Hok) as Hokr.
  split; [split; [done|split; [done|]]|].
  { apply select_desc_decreasing, Hoks. }
  split; [split; [done|split; [done|]]|].
  { apply select_desc_decreasing, Hoka. }
  split.
  { intros Hops. apply rows_prefix_list_suffix;
      [apply Hok|apply Hokr|by apply run_keeps_suggestions]. }
  split.
  { intros Hops. apply rows_prefix_list_suffix;
      [apply Hok|apply Hokr|by apply run_keeps_assignments]. }
  split; [apply select_desc_decreasing, Hokr|].
  split; [apply select_desc_decreasing, Hokr|].
  done.
Qed.

Lemma list_all_newest_first_witness :
  (snd <$> list_suggestions
             (add_suggestions jar3 [("Sparky", "brock", "2024-05-01T11:00:00");
                                    (" Ember ", "", "2024-05-01T11:01:00")])
   = [mk_suggestion "Ember" "" "2024-05-01T11:01:00";
      mk_suggestion "Sparky" "brock" "2024-05-01T11:00:00";
      mk_suggestion "Blaze" "ash" "2024-05-01T10:02:00";
      mk_suggestion "luna" "" "2024-05-01T10:01:00";
      mk_suggestion "Luna" "misty" "2024-05-01T10:00:00"])
  ∧ fst <$> list_suggestions
              (add_suggestions jar3 [("Sparky", "brock", "2024-05-01T11:00:00");
                                     (" Ember ", "", "2024-05-01T11:01:00")])
    = [5; 4; 3; 2; 1].
Proof.
  split; [|reflexivity].
  refine (proj1 (proj1 (list_all_newest_first jar3
            [("Sparky", "brock", "2024-05-01T11:00:00");
             (" Ember ", "", "2024-05-01T11:01:00")] [] [] _))).
  apply (bool_decide_unpack _). vm_compute. exact I.
Defined.

(** ** Ids after a clearing (claim C7) *)

Lemma step_seq_mono conn o :
  seq (suggestions conn) <= seq (suggestions (step conn o))
  ∧ seq (assignments conn) <= seq (assignments (step conn o)).
Proof.
  destruct o as [n u now|p u a r now| |]; simpl; [| |done|done].
  - destruct (submit_cases conn n u now)
      as [(_ & ->)|[(_ & _ & ->)|(_ & _ & ->)]]; simpl; try done.
    pose proof (next_id_gt_seq (suggestions conn)). lia.
  - destruct (pick_cases conn p u a r now)
      as [(_ & ->)|[(_ & _ & ->)|(_ & c & _ & _ & ->)]]; simpl; try done.
    pose proof (next_id_gt_seq (assignments conn)). lia.
Qed.

Lemma run_seq_mono ops conn :
  seq (suggestions conn) <= seq (suggestions (run ops conn))
  ∧ seq (assignments conn) <= seq (assignments (run ops conn)).
Proof.
  revert conn. induction ops as [|o ops IH]; intros conn; simpl; [done|].
  destruct (step_seq_mono conn o), (IH (step conn o)). lia.
Qed.

(** Every state of a session is well formed, and its counters are at
    most those of the last state. *)
Lemma history_bound ops conn past :
  tables_ok conn → past ∈ history ops conn →
  tables_ok past
  ∧ seq (suggestions past) <= seq (suggestions (run ops conn))
  ∧ seq (assignments past) <= seq (assignments (run ops conn)).
Proof.
  revert conn. induction ops as [|o ops IH]; intros conn Hok; simpl.
  - intros ->%list_elem_of_singleton. done.
  - intros [->|Hin]%elem_of_cons.
    + split; [done|]. apply (run_seq_mono (o :: ops)).
    + apply IH; [by apply tables_ok_step|done].
Qed.

Lemma wf_row_le_seq {A} (t : table A) r : wf t → r ∈ rows t → r.1 <= seq t.
Proof.
  intros (_ & _ & Hle) Hr. rewrite Forall_forall in Hle.
  specialize (Hle r Hr). lia.
Qed.

(** C7: right after a table is cleared its listing is empty, and the row
    appended next gets an id above every id a row of that table had at
    any earlier moment of the session, so no id comes back. *)
Theorem ids_never_reused ops n u p ch now :
  list_suggestions (clear_suggestions (run ops get_conn)) = []
  ∧ list_assignments (clear_assignments (run ops get_conn)) = []
  ∧ (∃ id,
        list_suggestions
          (add_suggestion (clear_suggestions (run ops get_conn)) n u now)
        = [(id, mk_suggestion (PyStr.strip n) (PyStr.strip u) now)]
        ∧ ∀ past row, past ∈ history ops get_conn →
                      row ∈ rows (suggestions past) → row.1 < id)
  ∧ (∃ id,
        list_assignments
          (add_assignment (clear_assignments (run ops get_conn)) p ch now)
        = [(id, mk_assignment (PyStr.strip p) (PyStr.strip ch) now)]
        ∧ ∀ past row, past ∈ history ops get_conn →
                      row ∈ rows (assignments past) → row.1 < id).
Proof.
  split; [done|]. split; [done|]. split.
  - eexists. split; [reflexivity|].
    intros past row Hpast Hrow.
    destruct (history_bound ops get_conn past tables_ok_get_conn Hpast)
      as ([Hwf _] & Hle & _).
    pose proof (wf_row_le_seq _ _ Hwf Hrow).
    pose proof (next_id_gt_seq
                  (suggestions (clear_suggestions (run ops get_conn)))) as Hgt.
    simpl in Hgt. simpl. lia.
  - eexists. split; [reflexivity|].
    intros past row Hpast Hrow.
    destruct (history_bound ops get_conn past tables_ok_get_conn Hpast)
      as ([_ Hwf] & _ & Hle).
    pose proof (wf_row_le_seq _ _ Hwf Hrow).
    pose proof (next_id_gt_seq
                  (assignments (clear_assignments (run ops get_conn)))) as Hgt.
    simpl in Hgt. simpl. lia.
Qed.

Example id_after_clear :
  fst <$> list_suggestions
            (add_suggestion (clear_suggestions jar3) "Sparky" "brock"
                            "2024-05-01T11:00:00")
  = [4].
Proof. reflexivity. Qed.

(** * Further properties of the handlers *)

(** ** What [strip] removes *)

Lemma all_space_app s1 s2 :
  all_space (s1 ++ s2)%string = all_space s1 && all_space s2.
Proof.
  induction s1 as [|c s1 IH]; simpl; [done|]. by rewrite IH, andb_assoc.
Qed.

Lemma lstrip_decompose s :
  ∃ pre, s = (pre ++ PyStr.lstrip s)%string ∧ all_space pre = true.
Proof.
  induction s as [|c s (pre & Hs & Hpre)]; simpl.
  - by exists "".
  - destruct (PyStr.isspace c) eqn:Hc.
    + exists (String c pre). split.
      * change (String c s = String c (pre ++ PyStr.lstrip s)%string).
        by f_equal.
      * simpl. by rewrite Hc, Hpre.
    + by exists "".
Qed.

Lemma rstrip_decompose s :
  ∃ post, s = (PyStr.rstrip s ++ post)%string ∧ all_space post = true.
Proof.
  induction s as [|c s (post & Hs & Hpost)]; simpl.
  - by exists "".
  - destruct (PyStr.rstrip s) as [|d t] eqn:Hr.
    + change ("" ++ post)%string with post in Hs. subst post.
      destruct (PyStr.isspace c) eqn:Hc.
      * exists (String c s). split; [reflexivity|]. simpl. by rewrite Hc, Hpost.
      * exists s. split; [reflexivity|done].
    + exists post. split; [|done].
      change (String c s = String c (String d t ++ post)%string).
      by f_equal.
Qed.

Lemma rstrip_last s c :
  last_char (PyStr.rstrip s) = Some c → PyStr.isspace c = false.
Proof.
  induction s as [|d s IH]; simpl; [done|].
  destruct (PyStr.rstrip s) as [|e t] eqn:Hr.
  - destruct (PyStr.isspace d) eqn:Hd; simpl; [done|]. by intros [= <-].
  - simpl. exact IH.
Qed.

Lemma strip_clean_ends s : clean_ends (PyStr.strip s).
Proof.
  split.
  - intros c Hc.
    pose proof (rstrip_starts_clean _ (lstrip_starts_clean s)) as H.
    unfold PyStr.strip in Hc. destruct (PyStr.rstrip (PyStr.lstrip s)); [done|].
    by simplify_eq/=.
  - apply rstrip_last.
Qed.

Lemma strip_decompose s :
  ∃ pre post,
    s = (pre ++ PyStr.strip s ++ post)%string
    ∧ all_space pre = true ∧ all_space post = true.
Proof.
  destruct (lstrip_decompose s) as (pre & Hs & Hpre).
  destruct (rstrip_decompose (PyStr.lstrip s)) as (post & Hl & Hpost).
  exists pre, post. unfold PyStr.strip. by rewrite <-Hl.
Qed.

(** X1: the row [add_suggestion] appends holds the name and the user
    with the white space at both ends taken away and nothing else
    changed: the given name is the stored one between two runs of white
    space, and the stored one neither starts nor ends with white space. *)
Theorem add_suggestion_trims conn n u now :
  ∃ stored by_user pre post pre_u post_u,
    rows (suggestions (add_suggestion conn n u now))
    = rows (suggestions conn)
        ++ [(next_id (suggestions conn), mk_suggestion stored by_user now)]
    ∧ n = (pre ++ stored ++ post)%string
    ∧ all_space pre = true ∧ all_space post = true ∧ clean_ends stored
    ∧ u = (pre_u ++ by_user ++ post_u)%string
    ∧ all_space pre_u = true ∧ all_space post_u = true ∧ clean_ends by_user.
Proof.
  destruct (strip_decompose n) as (pre & post & Hn & Hpre & Hpost).
  destruct (strip_decompose u) as (pre_u & post_u & Hu & Hpre_u & Hpost_u).
  exists (PyStr.strip n), (PyStr.strip u), pre, post, pre_u, post_u.
  split; [done|]. auto 10 using strip_clean_ends.
Qed.

(** X2: white space around the name and around the user's name makes no
    difference to a submission: same message, same database. *)
Theorem submit_ignores_outer_space conn n u now :
  submit conn n u now = submit conn (PyStr.strip n) (PyStr.strip u) now.
Proof.
  unfold submit, add_suggestion. rewrite !strip_idem.
  destruct n as [|c n]; [done|].
  change (PyStr.truthy (String c n)) with true. simpl negb at 1.
  destruct (PyStr.truthy (PyStr.strip (String c n))); simpl; done.
Qed.

(** X3: white space around the subject makes no difference to a draw. *)
Theorem pick_ignores_outer_space conn p u a r now :
  pick conn p u a r now = pick conn (PyStr.strip p) u a r now.
Proof. unfold pick, add_assignment. by rewrite !strip_idem. Qed.

(** ** What a session lets into the tables *)

Lemma rows_valid_step conn o : rows_valid conn → rows_valid (step conn o).
Proof.
  intros [Hs Ha]. destruct o as [n u now|p u a r now| |]; simpl.
  - destruct (submit_cases conn n u now)
      as [(_ & ->)|[(_ & _ & ->)|(Hne & Hl & ->)]]; simpl; try done.
    split; [|done]. simpl. apply Forall_app. split; [done|].
    apply Forall_singleton. unfold suggestion_valid. simpl.
    by rewrite !strip_idem.
  - destruct (pick_cases conn p u a r now)
      as [(_ & ->)|[(_ & _ & ->)|(Hp & c & Hin & _ & ->)]]; simpl; try done.
    split; [done|]. simpl. apply Forall_app. split; [done|].
    apply Forall_singleton. unfold assignment_valid. simpl.
    rewrite !strip_idem.
    apply elem_of_draw_pool in Hin as (n & Hn & _ & Hc).
    apply elem_of_pool_names in Hn as (row & Hrow & <-).
    rewrite Forall_forall in Hs.
    destruct (Hs row Hrow) as (Hne & Hstrip & Hlen & _).
    assert (c = name row.2) as ->.
    { destruct a; [done|]. destruct Hc as [-> _]. done. }
    by rewrite Hstrip.
  - split; [constructor|done].
  - split; [done|constructor].
Qed.

(** X4: whatever the users do, starting from a new database, every
    suggestion in the table has a name that is not empty, has no white
    space at its ends and has at most 50 characters, and every
    assignment has a subject that is not empty and a chosen name with
    the same three properties. *)
Theorem session_rows_valid ops : rows_valid (run ops get_conn).
Proof.
  assert (∀ conn, rows_valid conn → rows_valid (run ops conn)) as H.
  { induction ops as [|o ops IH]; intros conn Hok; simpl; [done|].
    by apply IH, rows_valid_step. }
  apply H. split; constructor.
Qed.

(** ** The two toggles and the pool *)

Lemma elem_of_draw_pool_ok conn u a x :
  names_ok conn →
  x ∈ draw_pool conn u a ↔
  x ∈ pool_names conn ∧ PyStr.lower x ∉ assigned conn u.
Proof.
  intros Hok. destruct a; [|by apply elem_of_draw_pool_collapsed].
  unfold draw_pool. rewrite list_elem_of_filter. tauto.
Qed.

Lemma length_pool_names conn :
  length (pool_names conn) = length (rows (suggestions conn)).
Proof.
  unfold pool_names, list_suggestions.
  by rewrite length_fmap, select_desc_Permutation.
Qed.

Lemma length_dict_keys ks : (length (dict_keys ks) <= length ks)%nat.
Proof.
  apply submseteq_length, NoDup_submseteq; [apply NoDup_dict_keys|].
  intros x. by rewrite elem_of_dict_keys.
Qed.

Lemma assigned_false conn : assigned conn false = ∅.
Proof. done. Qed.

(** X5: on a database whose names are trimmed, collapsing duplicates
    changes which names can come out in no way: the two pools hold the
    same names, the collapsed one holds each once, and the count shown
    with duplicates collapsed is at most the count shown with them. *)
Theorem collapse_keeps_names conn u :
  names_ok conn →
  (∀ x, x ∈ draw_pool conn u false ↔ x ∈ draw_pool conn u true)
  ∧ NoDup (draw_pool conn u false)
  ∧ (length (draw_pool conn u false) <= length (draw_pool conn u true))%nat.
Proof.
  intros Hok.
  assert (∀ x, x ∈ draw_pool conn u false ↔ x ∈ draw_pool conn u true) as Heq.
  { intros x. by rewrite !elem_of_draw_pool_ok. }
  split; [done|]. split; [apply draw_pool_collapsed_NoDup|].
  apply submseteq_length, NoDup_submseteq; [apply draw_pool_collapsed_NoDup|].
  intros x. by rewrite Heq.
Qed.

Lemma collapse_keeps_names_witness :
  (∀ x, x ∈ draw_pool jar_aab true false ↔ x ∈ draw_pool jar_aab true true)
  ∧ NoDup (draw_pool jar_aab true false)
  ∧ (length (draw_pool jar_aab true false)
     <= length (draw_pool jar_aab true true))%nat.
Proof.
  apply (collapse_keeps_names jar_aab true).
  apply (bool_decide_unpack _). vm_compute. exact I.
Defined.

(** X6: the unique-names toggle only takes names away, and no pool has
    more entries than the suggestions table has rows; while nothing is
    assigned the toggle changes nothing. *)
Theorem unique_only_shrinks conn a :
  (∀ x, x ∈ draw_pool conn true a → x ∈ draw_pool conn false a)
  ∧ (length (draw_pool conn true a) <= length (draw_pool conn false a))%nat
  ∧ (length (draw_pool conn false a) <= length (rows (suggestions conn)))%nat
  ∧ (rows (assignments conn) = [] →
     draw_pool conn true a = draw_pool conn false a).
Proof.
  assert (∀ x, x ∈ draw_pool conn true a → x ∈ draw_pool conn false a) as Hsub.
  { intros x (n & Hn & _ & Hx)%elem_of_draw_pool. apply elem_of_draw_pool.
    exists n. split; [done|]. split; [apply not_elem_of_empty|done]. }
  split; [done|]. split; [|split].
  - destruct a.
    + unfold draw_pool.
      rewrite (filter_all (fun n => PyStr.lower n ∉ assigned conn false))
        by (intros n; apply not_elem_of_empty).
      apply length_filter.
    + apply submseteq_length, NoDup_submseteq;
        [apply draw_pool_collapsed_NoDup|done].
  - rewrite <-length_pool_names. destruct a; unfold draw_pool.
    + apply length_filter.
    + rewrite sorted_Permutation. etrans; [apply length_dict_keys|].
      rewrite length_fmap. apply length_filter.
  - intros He. unfold draw_pool.
    by rewrite (assigned_no_assignments conn true He), assigned_false.
Qed.

Lemma draw_pool_same_data c1 c2 u1 u2 a :
  pool_names c1 = pool_names c2 → assigned c1 u1 = assigned c2 u2 →
  draw_pool c1 u1 a = draw_pool c2 u2 a.
Proof. intros Hn Ha. unfold draw_pool. by rewrite Hn, Ha. Qed.

Lemma pick_keeps_suggestions conn p u a r now :
  suggestions (pick conn p u a r now).2 = suggestions conn.
Proof.
  destruct (pick_cases conn p u a r now)
    as [(_ & ->)|[(_ & _ & ->)|(_ & c & _ & _ & ->)]]; done.
Qed.

Lemma pool_names_same_suggestions c1 c2 :
  suggestions c1 = suggestions c2 → pool_names c1 = pool_names c2.
Proof. intros H. unfold pool_names, list_suggestions. by rewrite H. Qed.

(** X7: with the unique-names toggle off a draw uses nothing up: after
    any click on the draw button, whatever came out, the pool a draw
    without that toggle sees is the one it saw before. *)
Theorem draw_with_repeats_keeps_pool conn p u a r now a' :
  draw_pool (pick conn p u a r now).2 false a' = draw_pool conn false a'.
Proof.
  apply draw_pool_same_data; [|done].
  apply pool_names_same_suggestions, pick_keeps_suggestions.
Qed.

(** X8: the draw button answers that no name is available exactly when
    every suggestion in the table is, up to case, a name already
    assigned (with the unique-names toggle off: when the table is
    empty). *)
Theorem no_names_iff_all_used conn p u a r now :
  names_ok conn → PyStr.strip p ≠ "" →
  (pick conn p u a r now).1 = NoAvailableNames ↔
  ∀ row, row ∈ rows (suggestions conn) →
         PyStr.lower (name row.2) ∈ assigned conn u.
Proof.
  intros Hok Hp.
  assert (draw_pool conn u a = [] ↔
          ∀ row, row ∈ rows (suggestions conn) →
                 PyStr.lower (name row.2) ∈ assigned conn u) as Hempty.
  { split.
    - intros He row Hrow.
      destruct (decide (PyStr.lower (name row.2) ∈ assigned conn u)); [done|].
      assert (name row.2 ∈ draw_pool conn u a) as Hin.
      { apply elem_of_draw_pool_ok; [done|]. split; [|done].
        apply elem_of_pool_names. by exists row. }
      rewrite He in Hin. by apply elem_of_nil in Hin.
    - intros Hall. destruct (draw_pool conn u a) as [|x l] eqn:He; [done|].
      assert (x ∈ draw_pool conn u a) as Hin by (rewrite He; left).
      apply elem_of_draw_pool_ok in Hin as [Hn Hni]; [|done].
      apply elem_of_pool_names in Hn as (row & Hrow & <-).
      destruct Hni. by apply Hall. }
  rewrite <-Hempty.
  destruct (pick_cases conn p u a r now)
    as [(Hb & _)|[(_ & He & ->)|(_ & c & Hin & _ & ->)]]; [done| |]; simpl.
  - done.
  - split; [done|]. intros He. rewrite He in Hin. by apply elem_of_nil in Hin.
Qed.

Lemma no_names_iff_all_used_witness :
  (pick jar3 "Eevee" true false 0 "2024-05-02T09:00:00").1 = NoAvailableNames ↔
  ∀ row, row ∈ rows (suggestions jar3) →
         PyStr.lower (name row.2) ∈ assigned jar3 true.
Proof.
  apply (no_names_iff_all_used jar3 "Eevee" true false 0 "2024-05-02T09:00:00").
  - apply (bool_decide_unpack _). vm_compute. exact I.
  - vm_compute. discriminate.
Defined.

Lemma filter_length_mono {A} (P Q : A → Prop)
    `{!∀ x, Decision (P x)} `{!∀ x, Decision (Q x)} (l : list A) :
  (∀ y, Q y → P y) → (length (filter Q l) <= length (filter P l))%nat.
Proof.
  intros Himp. induction l as [|y l IH]; [done|].
  rewrite !filter_cons.
  destruct (decide (Q y)) as [HQ|HQ].
  - rewrite decide_True by auto. simpl. lia.
  - destruct (decide (P y)); simpl; lia.
Qed.

Lemma filter_length_lt {A} (P Q : A → Prop)
    `{!∀ x, Decision (P x)} `{!∀ x, Decision (Q x)} (l : list A) x :
  (∀ y, Q y → P y) → x ∈ l → P x → ¬ Q x →
  (length (filter Q l) < length (filter P l))%nat.
Proof.
  intros Himp Hin HP HQ. induction l as [|y l IH]; [by apply elem_of_nil in Hin|].
  rewrite !filter_cons.
  pose proof (filter_length_mono P Q l Himp) as Hmono.
  apply elem_of_cons in Hin as [<-|Hin].
  - rewrite decide_False, decide_True by done. simpl. lia.
  - specialize (IH Hin). destruct (decide (Q y)) as [HQy|HQy].
    + rewrite decide_True by auto. simpl. lia.
    + destruct (decide (P y)); simpl; lia.
Qed.

Lemma assigned_add_assignment conn p c now x :
  x ∈ assigned (add_assignment conn p c now) true ↔
  x ∈ assigned conn true ∨ x = PyStr.lower (PyStr.strip c).
Proof.
  rewrite !elem_of_assigned. simpl. split.
  - intros (row & [Hrow| ->%list_elem_of_singleton]%elem_of_app & <-).
    + left. by exists row.
    + by right.
  - intros [(row & Hrow & <-)| ->].
    + exists row. split; [|done]. apply elem_of_app. by left.
    + eexists. split; [apply elem_of_app; right; by apply list_elem_of_singleton|].
      done.
Qed.

(** X9: with the unique-names toggle on, every successful draw uses
    names up: the pool a unique draw sees afterwards, with either
    setting of the duplicates toggle, is strictly shorter than the one
    it saw before, so the draws come to an end. *)
Theorem unique_draw_uses_up conn p a r now chosen conn' a' :
  names_ok conn →
  pick conn p true a r now = (Chosen chosen, conn') →
  (length (draw_pool conn' true a') < length (draw_pool conn true a'))%nat.
Proof.
  intros Hok Hpick.
  destruct (pick_cases conn p true a r now)
    as [(_ & E)|[(_ & _ & E)|(_ & c & Hin & _ & E)]];
    rewrite E in Hpick; simplify_eq.
  destruct (draw_pool_names_ok conn true a chosen Hok Hin) as (Hn & Hni & Hc).
  set (conn' := add_assignment conn (PyStr.strip p) chosen now).
  assert (names_ok conn') as Hok' by done.
  assert (pool_names conn' = pool_names conn) as Hnames by done.
  assert (∀ y, PyStr.lower y ∉ assigned conn' true →
               PyStr.lower y ∉ assigned conn true) as Himp.
  { intros y Hy Hy'. apply Hy. apply assigned_add_assignment. by left. }
  assert (¬ (PyStr.lower chosen ∉ assigned conn' true)) as Hused.
  { intros Hy. apply Hy. apply assigned_add_assignment. right. by rewrite Hc. }
  destruct a'.
  - unfold draw_pool. rewrite Hnames.
    by apply (filter_length_lt _ _ _ chosen).
  - assert (draw_pool conn' true false ⊆+ draw_pool conn true false) as Hsub.
    { apply NoDup_submseteq; [apply draw_pool_collapsed_NoDup|].
      intros x. rewrite !elem_of_draw_pool_ok, Hnames by done.
      intros [? ?]. auto. }
    pose proof (submseteq_length _ _ Hsub) as Hle.
    destruct (decide (length (draw_pool conn' true false)
                      = length (draw_pool conn true false))) as [Heq|]; [|lia].
    exfalso. apply Hused. intros Hy.
    assert (chosen ∈ draw_pool conn' true false) as Hin'.
    { rewrite (submseteq_length_Permutation _ _ Hsub) by lia.
      apply elem_of_draw_pool_ok; done. }
    apply elem_of_draw_pool_ok in Hin' as [_ Hni']; done.
Qed.

Lemma unique_draw_uses_up_witness :
  (length (draw_pool (pick jar3 "Eevee" true false 0 "2024-05-02T09:00:00").2
                     true true)
   < length (draw_pool jar3 true true))%nat.
Proof.
  apply (unique_draw_uses_up jar3 "Eevee" false 0 "2024-05-02T09:00:00" "Blaze").
  - apply (bool_decide_unpack _). vm_compute. exact I.
  - vm_compute. reflexivity.
Defined.

(** X10: clearing the assignments makes every suggestion eligible again,
    whatever the unique-names toggle says, and clearing the suggestions
    leaves nothing to draw. *)
Theorem clearing_resets_pool conn u a :
  draw_pool (clear_assignments conn) u a = draw_pool conn false a
  ∧ draw_pool (clear_suggestions conn) u a = [].
Proof.
  split.
  - apply draw_pool_same_data; [done|].
    by rewrite assigned_no_assignments, assigned_false.
  - unfold draw_pool.
    change (pool_names (clear_suggestions conn)) with (@nil string).
    by destruct a.
Qed.

(** ** Ids without gaps *)

Lemma gap_free_create {A} : gap_free (@create A).
Proof. done. Qed.

Lemma gap_free_insert {A} (t : table A) a :
  wf t → gap_free t → gap_free (insert t a).
Proof.
  intros Hwf [Hids Hseq]. unfold gap_free. simpl.
  rewrite (next_id_wf t Hwf), length_app, fmap_app, Hids, Hseq. simpl.
  rewrite Nat.add_1_r, seq_S, fmap_app. simpl. split.
  - do 2 f_equal. lia.
  - lia.
Qed.

Lemma gap_free_suggestions_run ops conn :
  tables_ok conn → gap_free (suggestions conn) →
  Forall (fun o => o ≠ ClearSuggestions) ops →
  gap_free (suggestions (run ops conn)).
Proof.
  intros Hok Hgf Hops. revert conn Hok Hgf.
  induction Hops as [|o ops Ho Hops IH]; intros conn Hok Hgf; simpl; [done|].
  apply IH; [by apply tables_ok_step|].
  destruct o as [n u now|p u a r now| |]; simpl; [| |done|done].
  - destruct (submit_cases conn n u now)
      as [(_ & ->)|[(_ & _ & ->)|(_ & _ & ->)]]; simpl; try done.
    apply gap_free_insert; [apply Hok|done].
  - by rewrite pick_keeps_suggestions.
Qed.

Lemma gap_free_assignments_run ops conn :
  tables_ok conn → gap_free (assignments conn) →
  Forall (fun o => o ≠ ClearAssignments) ops →
  gap_free (assignments (run ops conn)).
Proof.
  intros Hok Hgf Hops. revert conn Hok Hgf.
  induction Hops as [|o ops Ho Hops IH]; intros conn Hok Hgf; simpl; [done|].
  apply IH; [by apply tables_ok_step|].
  destruct o as [n u now|p u a r now| |]; simpl; [| |done|done].
  - destruct (submit_cases conn n u now)
      as [(_ & ->)|[(_ & _ & ->)|(_ & _ & ->)]]; simpl; done.
  - destruct (pick_cases conn p u a r now)
      as [(_ & ->)|[(_ & _ & ->)|(_ & c & _ & _ & ->)]]; simpl; try done.
    apply gap_free_insert; [apply Hok|done].
Qed.

Lemma gap_free_listing {A} (t : table A) :
  wf t → gap_free t →
  fst <$> select_desc t = Z.of_nat <$> reverse (List.seq 1 (length (rows t))).
Proof.
  intros [Hasc _] [Hids _].
  by rewrite select_desc_reverse, !fmap_reverse, Hids.
Qed.

(** X11: as long as nobody clears the suggestions, starting from a new
    database, the ids listed for the [n] suggestions are n, ..., 2, 1:
    the first accepted name gets id 1 and no id is skipped. *)
Theorem suggestion_ids_gap_free ops :
  Forall (fun o => o ≠ ClearSuggestions) ops →
  fst <$> list_suggestions (run ops get_conn)
  = Z.of_nat
      <$> reverse (List.seq 1 (length (rows (suggestions (run ops get_conn))))).
Proof.
  intros Hops. apply gap_free_listing.
  - apply (tables_ok_run ops get_conn tables_ok_get_conn).
  - by apply gap_free_suggestions_run;
      [apply tables_ok_get_conn|apply gap_free_create|].
Qed.

Lemma suggestion_ids_gap_free_witness :
  fst <$> list_suggestions jar3 = [3; 2; 1].
Proof.
  apply (suggestion_ids_gap_free
           [Submit "Luna" "misty" "2024-05-01T10:00:00";
            Submit "luna" "" "2024-05-01T10:01:00";
            Submit "Blaze" "ash" "2024-05-01T10:02:00"]).
  repeat constructor; discriminate.
Defined.

(** X12: as long as nobody clears the assignments, starting from a new
    database, the ids listed for the [n] assignments are n, ..., 2, 1,
    whatever happens to the suggestions in between. *)
Theorem assignment_ids_gap_free ops :
  Forall (fun o => o ≠ ClearAssignments) ops →
  fst <$> list_assignments (run ops get_conn)
  = Z.of_nat
      <$> reverse (List.seq 1 (length (rows (assignments (run ops get_conn))))).
Proof.
  intros Hops. apply gap_free_listing.
  - apply (tables_ok_run ops get_conn tables_ok_get_conn).
  - by apply gap_free_assignments_run;
      [apply tables_ok_get_conn|apply gap_free_create|].
Qed.

Lemma assignment_ids_gap_free_witness :
  fst <$> list_assignments
            (run [Submit "Luna" "misty" "2024-05-01T10:00:00";
                  Pick "Eevee" true false 0 "2024-05-02T09:00:00";
                  ClearSuggestions;
                  Submit "Blaze" "ash" "2024-05-02T09:05:00";
                  Pick "Abra" true false 0 "2024-05-02T09:06:00"] get_conn)
  = [2; 1].
Proof.
  apply (assignment_ids_gap_free
           [Submit "Luna" "misty" "2024-05-01T10:00:00";
            Pick "Eevee" true false 0 "2024-05-02T09:00:00";
            ClearSuggestions;
            Submit "Blaze" "ash" "2024-05-02T09:05:00";
            Pick "Abra" true false 0 "2024-05-02T09:06:00"]).
  repeat constructor; discriminate.
Defined.

(** ** The admin key *)

Lemma admin_step_no_key conn o :
  rows (suggestions conn) `prefix_of` rows (suggestions (admin_step "" conn o))
  ∧ rows (assignments conn) `prefix_of` rows (assignments (admin_step "" conn o)).
Proof.
  destruct o as [n u now|p u a r now| |]; simpl; [| |done|done].
  - split; [by apply (step_keeps_suggestions conn (Submit n u now))
           |by apply (step_keeps_assignments conn (Submit n u now))].
  - split; [by apply (step_keeps_suggestions conn (Pick p u a r now))
           |by apply (step_keeps_assignments conn (Pick p u a r now))].
Qed.

Lemma admin_step_key key conn o : key ≠ "" → admin_step key conn o = step conn o.
Proof.
  intros Hk%truthy_true. destruct o; simpl; by rewrite ?Hk.
Qed.

(** X13: while the admin key field is empty nothing the users do takes
    a row out of either table. *)
Theorem no_key_no_deletion ops conn :
  rows (suggestions conn) `prefix_of` rows (suggestions (admin_run "" ops conn))
  ∧ rows (assignments conn) `prefix_of` rows (assignments (admin_run "" ops conn)).
Proof.
  revert conn. induction ops as [|o ops IH]; intros conn; simpl; [done|].
  destruct (admin_step_no_key conn o) as [Hs Ha].
  destruct (IH (admin_step "" conn o)) as [Hs' Ha'].
  split; etrans; done.
Qed.

(** X14: once anything at all is typed in the admin key field the clear
    buttons work like every other control: the value of the key is
    compared with nothing. *)
Theorem any_key_unlocks key ops conn :
  key ≠ "" → admin_run key ops conn = run ops conn.
Proof.
  intros Hk. revert conn. induction ops as [|o ops IH]; intros conn; simpl; [done|].
  by rewrite admin_step_key, IH.
Qed.

Lemma any_key_unlocks_witness :
  admin_run "x" [ClearSuggestions; ClearAssignments] jar3
  = run [ClearSuggestions; ClearAssignments] jar3.
Proof.
  apply (any_key_unlocks "x" [ClearSuggestions; ClearAssignments] jar3).
  discriminate.
Defined.

Example any_key_clears :
  admin_run "x" [ClearSuggestions; ClearAssignments] jar3
  = clear_assignments (clear_suggestions jar3)
  ∧ admin_run "" [ClearSuggestions; ClearAssignments] jar3 = jar3.
Proof. split; reflexivity. Qed.

(** ** The Showdown slug *)

Lemma lower_app s1 s2 :
  PyStr.lower (s1 ++ s2)%string = (PyStr.lower s1 ++ PyStr.lower s2)%string.
Proof.
  induction s1 as [|c s1 IH]; [done|].
  change (String (PyStr.lower_char c) (PyStr.lower (s1 ++ s2)%string)
          = String (PyStr.lower_char c) (PyStr.lower s1 ++ PyStr.lower s2)%string).
  by rewrite IH.
Qed.

Lemma string_app_assoc (s1 s2 s3 : string) :
  ((s1 ++ s2) ++ s3)%string = (s1 ++ (s2 ++ s3))%string.
Proof.
  induction s1 as [|c s1 IH]; [done|].
  change (String c ((s1 ++ s2) ++ s3)%string = String c (s1 ++ (s2 ++ s3))%string).
  by rewrite IH.
Qed.

Lemma replace_char_app old new s1 s2 :
  replace_char old new (s1 ++ s2)%string
  = (replace_char old new s1 ++ replace_char old new s2)%string.
Proof.
  induction s1 as [|c s1 IH]; [done|].
  change (replace_char old new (String c (s1 ++ s2)%string)
          = (replace_char old new (String c s1) ++ replace_char old new s2)%string).
  simpl. rewrite IH. destruct (Ascii.eqb c old); [|done].
  by rewrite string_app_assoc.
Qed.

Lemma all_chars_app P s1 s2 :
  all_chars P (s1 ++ s2)%string = all_chars P s1 && all_chars P s2.
Proof.
  induction s1 as [|c s1 IH]; [done|].
  change (P c && all_chars P (s1 ++ s2)%string
          = P c && all_chars P s1 && all_chars P s2).
  by rewrite IH, andb_assoc.
Qed.

Lemma normalize_cons c s :
  normalize_for_showdown (String c s)
  = (slug_of_char c ++ normalize_for_showdown s)%string.
Proof.
  unfold normalize_for_showdown, slug_of_char.
  change (nfkd_ascii (String c s)) with (nfkd_ascii_char c ++ nfkd_ascii s)%string.
  by rewrite lower_app, !replace_char_app.
Qed.

Lemma slug_of_char_slug c : all_chars slug_char (slug_of_char c) = true.
Proof.
  destruct c as [b0 b1 b2 b3 b4 b5 b6 b7].
  destruct b0, b1, b2, b3, b4, b5, b6, b7; vm_compute; reflexivity.
Qed.

Lemma slug_of_char_fixed c :
  slug_char c = true → slug_of_char c = String c EmptyString.
Proof.
  destruct c as [b0 b1 b2 b3 b4 b5 b6 b7].
  destruct b0, b1, b2, b3, b4, b5, b6, b7; vm_compute;
    intros H; try reflexivity; discriminate H.
Qed.

(** X15: whatever the name, the slug is made of ASCII characters only
    and has no space, no apostrophe and no capital letter in it. *)
Theorem slug_charset s : all_chars slug_char (normalize_for_showdown s) = true.
Proof.
  induction s as [|c s IH]; [done|].
  by rewrite normalize_cons, all_chars_app, slug_of_char_slug, IH.
Qed.

Lemma slug_fixed s :
  all_chars slug_char s = true → normalize_for_showdown s = s.
Proof.
  induction s as [|c s IH]; [done|].
  change (slug_char c && all_chars slug_char s = true
          → normalize_for_showdown (String c s) = String c s).
  intros [Hc Hs]%andb_true_iff.
  by rewrite normalize_cons, (slug_of_char_fixed c Hc), IH.
Qed.

(** X16: the names [normalize_for_showdown] leaves as they are are
    exactly those made of such characters; so a slug is its own slug. *)
Theorem slug_fixed_points s :
  (normalize_for_showdown s = s ↔ all_chars slug_char s = true)
  ∧ normalize_for_showdown (normalize_for_showdown s) = normalize_for_showdown s.
Proof.
  split; [split|].
  - intros <-. apply slug_charset.
  - apply slug_fixed.
  - apply slug_fixed, slug_charset.
Qed.

Example slug_examples :
  normalize_for_showdown "Mr Mime" = "mr-mime"
  ∧ normalize_for_showdown "Farfetch'd" = "farfetchd"
  ∧ normalize_for_showdown "nidoran-f" = "nidoran-f".
Proof. repeat split. Qed.

(** ** The exported JSON *)

Module JsonFacts.
Import Json JsonRead.

Local Open Scope string_scope.

Lemma strip_prefix_app p rest : strip_prefix p (p ++ rest) = Some rest.
Proof.
  induction p as [|a p IH]; [done|].
  change (String a p ++ rest) with (String a (p ++ rest)).
  simpl. by rewrite Ascii.eqb_refl.
Qed.

Lemma strip_prefix_cancel a p s :
  strip_prefix (a ++ p) (a ++ s) = strip_prefix p s.
Proof.
  induction a as [|c a IH]; [done|].
  change (strip_prefix (String c (a ++ p)) (String c (a ++ s)) = strip_prefix p s).
  simpl. by rewrite Ascii.eqb_refl.
Qed.

Lemma read_string_body_char c tail :
  read_string_body (escape_char c ++ tail)
  = match read_string_body tail with
    | Some (v, rest) => Some (String c v, rest)
    | None => None
    end.
Proof.
  destruct c as [b0 b1 b2 b3 b4 b5 b6 b7].
  destruct b0, b1, b2, b3, b4, b5, b6, b7; reflexivity.
Qed.

Lemma read_string_body_escape s rest :
  read_string_body (escape s ++ String quote rest) = Some (s, rest).
Proof.
  induction s as [|c s IH].
  - reflexivity.
  - change (escape (String c s)) with (escape_char c ++ escape s).
    by rewrite string_app_assoc, read_string_body_char, IH.
Qed.

Lemma read_string_json v rest : read_string (json_string v ++ rest) = Some (v, rest).
Proof.
  unfold json_string.
  change (String quote (escape v ++ String quote "") ++ rest)
    with (String quote ((escape v ++ String quote "") ++ rest)).
  rewrite string_app_assoc.
  change (String quote "" ++ rest) with (String quote rest).
  unfold read_string. rewrite Ascii.eqb_refl. apply read_string_body_escape.
Qed.

Lemma read_int_chars_uint d c rest :
  is_int_char c = false →
  read_int_chars (DecimalString.NilEmpty.string_of_uint d ++ String c rest)
  = (DecimalString.NilEmpty.string_of_uint d, String c rest).
Proof.
  intros Hc. induction d as [|d IH|d IH|d IH|d IH|d IH|d IH|d IH|d IH|d IH|d IH];
    [simpl; change ("" ++ String c rest) with (String c rest); simpl; by rewrite Hc|..];
    cbn [DecimalString.NilEmpty.string_of_uint];
    match goal with
    | |- read_int_chars (String ?x ?s ++ ?t) = _ =>
        change (String x s ++ t) with (String x (s ++ t))
    end;
    cbn [read_int_chars]; rewrite IH; reflexivity.
Qed.

Lemma read_int_json z c rest :
  is_int_char c = false →
  read_int (json_int z ++ String c rest) = Some (z, String c rest).
Proof.
  intros Hc. unfold read_int, json_int.
  assert (read_int_chars
            (DecimalString.NilEmpty.string_of_int (Z.to_int z) ++ String c rest)
          = (DecimalString.NilEmpty.string_of_int (Z.to_int z), String c rest)) as ->.
  { destruct (Z.to_int z) as [d|d]; simpl.
    - by apply read_int_chars_uint.
    - change (String "-" (DecimalString.NilEmpty.string_of_uint d) ++ String c rest)
        with (String "-" (DecimalString.NilEmpty.string_of_uint d ++ String c rest)).
      cbn [read_int_chars]. change (is_int_char "-") with true. cbv iota.
      by rewrite read_int_chars_uint. }
  by rewrite DecimalString.NilEmpty.isi, DecimalZ.of_to.
Qed.

Lemma option_bind_Some {A B} (x : A) (f : A → option B) : Some x ≫= f = f x.
Proof. reflexivity. Qed.

Lemma read_int_json_comma z p rest :
  read_int (json_int z ++ (("," ++ p) ++ rest)) = Some (z, ("," ++ p) ++ rest).
Proof.
  change (("," ++ p) ++ rest) with (String "," (p ++ rest)).
  by apply read_int_json.
Qed.

(** The text of a record, piece by piece. *)
Lemma row_json_shape k1 k2 k3 id v1 v2 v3 rest :
  row_json k1 k2 k3 (id, (v1, v2, v3)) ++ rest
  = ("{" ++ newline_indent 2 ++ json_string "id" ++ ": ")
      ++ (json_int id
      ++ (("," ++ newline_indent 2 ++ json_string k1 ++ ": ")
      ++ (json_string v1
      ++ (("," ++ newline_indent 2 ++ json_string k2 ++ ": ")
      ++ (json_string v2
      ++ (("," ++ newline_indent 2 ++ json_string k3 ++ ": ")
      ++ (json_string v3
      ++ ((newline_indent 1 ++ "}") ++ rest)))))))).
Proof.
  unfold row_json, json_object, json_member. cbn [join].
  by rewrite !string_app_assoc.
Qed.

Lemma read_row_json k1 k2 k3 r rest :
  read_row k1 k2 k3 (row_json k1 k2 k3 r ++ rest) = Some (r, rest).
Proof.
  destruct r as [id [[v1 v2] v3]].
  rewrite row_json_shape. unfold read_row.
  rewrite strip_prefix_app, option_bind_Some.
  rewrite read_int_json_comma, option_bind_Some. cbv beta iota.
  rewrite strip_prefix_app, option_bind_Some.
  rewrite read_string_json, option_bind_Some. cbv beta iota.
  rewrite strip_prefix_app, option_bind_Some.
  rewrite read_string_json, option_bind_Some. cbv beta iota.
  rewrite strip_prefix_app, option_bind_Some.
  rewrite read_string_json, option_bind_Some. cbv beta iota.
  rewrite strip_prefix_app, option_bind_Some.
  reflexivity.
Qed.

Lemma join_cons_cons sep x y ys :
  join sep (x :: y :: ys) = x ++ sep ++ join sep (y :: ys).
Proof. reflexivity. Qed.

Lemma read_rows_json k1 k2 k3 l fuel :
  l ≠ [] → (length l <= fuel)%nat →
  read_rows k1 k2 k3 fuel
    (join ("," ++ newline_indent 1) (row_json k1 k2 k3 <$> l)
       ++ (newline_indent 0 ++ "]"))
  = Some l.
Proof.
  revert fuel. induction l as [|r l IH]; intros fuel Hne Hlen; [done|].
  destruct fuel as [|fuel]; [simpl in Hlen; lia|].
  cbn [read_rows]. destruct l as [|r' l].
  - rewrite fmap_cons. cbn [fmap list_fmap join].
    rewrite read_row_json, option_bind_Some. reflexivity.
  - rewrite fmap_cons, (fmap_cons _ r' l), join_cons_cons, <-(fmap_cons _ r' l).
    rewrite !string_app_assoc.
    rewrite read_row_json, option_bind_Some. cbv beta iota.
    rewrite strip_prefix_cancel, strip_prefix_app.
    rewrite IH by (simpl in *; done || lia). reflexivity.
Qed.

(** Two lists of records with the same text are the same list. *)
Lemma dumps_inj k1 k2 k3 l1 l2 :
  dumps k1 k2 k3 l1 = dumps k1 k2 k3 l2 → l1 = l2.
Proof.
  unfold dumps, json_array. intros H.
  destruct l1 as [|r1 l1], l2 as [|r2 l2]; [done| | |].
  - apply (f_equal (strip_prefix "[]")) in H.
    rewrite fmap_cons in H. vm_compute in H. discriminate.
  - apply (f_equal (strip_prefix "[]")) in H.
    rewrite fmap_cons in H. vm_compute in H. discriminate.
  - remember (r1 :: l1) as a eqn:Ha. remember (r2 :: l2) as b eqn:Hb.
    assert (a ≠ []) as Hane by (by subst a).
    assert (b ≠ []) as Hbne by (by subst b).
    destruct (row_json k1 k2 k3 <$> a) as [|x xs] eqn:Hxa;
      [by subst a|rewrite <-Hxa in H].
    destruct (row_json k1 k2 k3 <$> b) as [|y ys] eqn:Hyb;
      [by subst b|rewrite <-Hyb in H].
    apply (inj (String.append _)) in H. apply (inj (String.append _)) in H.
    apply (f_equal (read_rows k1 k2 k3 (length a + length b))) in H.
    rewrite !read_rows_json in H by (done || lia). by simplify_eq.
Qed.

Lemma escape_char_text c : all_chars text_char (escape_char c) = true.
Proof.
  destruct c as [b0 b1 b2 b3 b4 b5 b6 b7].
  destruct b0, b1, b2, b3, b4, b5, b6, b7; reflexivity.
Qed.

Lemma escape_text s : all_chars text_char (escape s) = true.
Proof.
  induction s as [|c s IH]; [done|].
  change (escape (String c s)) with (escape_char c ++ escape s).
  by rewrite all_chars_app, escape_char_text, IH.
Qed.

Lemma json_string_text s : all_chars text_char (json_string s) = true.
Proof.
  unfold json_string.
  change (text_char quote && all_chars text_char (escape s ++ String quote "")
          = true).
  by rewrite all_chars_app, escape_text.
Qed.

Lemma json_int_text z : all_chars text_char (json_int z) = true.
Proof.
  unfold json_int.
  assert (∀ d, all_chars text_char (DecimalString.NilEmpty.string_of_uint d)
               = true) as Hu.
  { induction d; simpl; by rewrite ?IHd. }
  destruct (Z.to_int z); simpl; by rewrite ?Hu.
Qed.

Lemma row_json_text k1 k2 k3 r : all_chars text_char (row_json k1 k2 k3 r) = true.
Proof.
  destruct r as [id [[v1 v2] v3]].
  unfold row_json, json_object, json_member. cbn [join].
  rewrite !all_chars_app, !json_string_text, !json_int_text. reflexivity.
Qed.

Lemma join_text sep items :
  all_chars text_char sep = true →
  Forall (fun x => all_chars text_char x = true) items →
  all_chars text_char (join sep items) = true.
Proof.
  intros Hsep Hall. induction Hall as [|x items Hx Hall IH]; [done|].
  destruct items as [|y items]; [done|].
  change (join sep (x :: y :: items)) with (x ++ sep ++ join sep (y :: items)).
  by rewrite !all_chars_app, Hx, Hsep, IH.
Qed.

Lemma dumps_text k1 k2 k3 l : all_chars text_char (dumps k1 k2 k3 l) = true.
Proof.
  unfold dumps, json_array.
  destruct (row_json k1 k2 k3 <$> l) as [|x xs] eqn:Hx; [done|].
  rewrite <-Hx, !all_chars_app, join_text; [done..|].
  apply Forall_fmap, Forall_true. intros r. apply row_json_text.
Qed.

End JsonFacts.

Import JsonFacts.

#[local] Instance suggestion_columns_inj : Inj (=) (=) suggestion_columns.
Proof.
  intros [i1 [n1 u1 t1]] [i2 [n2 u2 t2]] H.
  unfold suggestion_columns in H. simpl in H. by simplify_eq.
Qed.

#[local] Instance assignment_columns_inj : Inj (=) (=) assignment_columns.
Proof.
  intros [i1 [p1 c1 t1]] [i2 [p2 c2 t2]] H.
  unfold assignment_columns in H. simpl in H. by simplify_eq.
Qed.

(** X17: the JSON export of the suggestions loses nothing: two
    databases that export the same text (or both show no button, having
    nothing to export) list the same suggestions, ids, names, users and
    times, in the same order. *)
Theorem export_suggestions_lossless c1 c2 :
  export_suggestions_json c1 = export_suggestions_json c2 →
  list_suggestions c1 = list_suggestions c2.
Proof.
  unfold export_suggestions_json.
  destruct (list_suggestions c1) as [|r1 l1], (list_suggestions c2) as [|r2 l2];
    [done|done|done|].
  intros H. apply (inj Some), dumps_inj in H.
  by apply (inj (fmap suggestion_columns)).
Qed.

Lemma export_suggestions_lossless_witness :
  list_suggestions jar3
  = list_suggestions (pick jar3 "Eevee" true false 0 "2024-05-02T09:00:00").2.
Proof.
  apply (export_suggestions_lossless
           jar3 (pick jar3 "Eevee" true false 0 "2024-05-02T09:00:00").2).
  vm_compute. reflexivity.
Defined.

(** X18: the JSON export of the assignments loses nothing either. *)
Theorem export_assignments_lossless c1 c2 :
  export_assignments_json c1 = export_assignments_json c2 →
  list_assignments c1 = list_assignments c2.
Proof.
  unfold export_assignments_json.
  destruct (list_assignments c1) as [|r1 l1], (list_assignments c2) as [|r2 l2];
    [done|done|done|].
  intros H. apply (inj Some), dumps_inj in H.
  by apply (inj (fmap assignment_columns)).
Qed.

Lemma export_assignments_lossless_witness :
  list_assignments (pick jar3 "Eevee" true false 0 "2024-05-02T09:00:00").2
  = list_assignments
      (clear_suggestions (pick jar3 "Eevee" true false 0 "2024-05-02T09:00:00").2).
Proof.
  apply (export_assignments_lossless
           (pick jar3 "Eevee" true false 0 "2024-05-02T09:00:00").2
           (clear_suggestions
              (pick jar3 "Eevee" true false 0 "2024-05-02T09:00:00").2)).
  vm_compute. reflexivity.
Defined.

(** X19: whatever the names hold, quotes, backslashes, control or
    accented characters, an exported JSON text is made of printable
    ASCII characters and line feeds only. *)
Theorem export_json_is_ascii conn text :
  export_suggestions_json conn = Some text
  ∨ export_assignments_json conn = Some text →
  all_chars JsonRead.text_char text = true.
Proof.
  unfold export_suggestions_json, export_assignments_json.
  intros [H|H].
  - destruct (list_suggestions conn); simplify_eq. apply dumps_text.
  - destruct (list_assignments conn); simplify_eq. apply dumps_text.
Qed.

Lemma export_json_is_ascii_witness :
  all_chars JsonRead.text_char (default "" (export_suggestions_json jar3)) = true.
Proof.
  apply (export_json_is_ascii jar3). left. vm_compute. reflexivity.
Defined.
